(** * debAIDe client: a shallow embedding of the stores and polling screens

    The development follows the TypeScript sources of the client:

    - [Theme]     lib/theme.ts        the zustand theme store
    - [Auth]      lib/authStore.ts    login, register, logout, loadToken
    - [Register]  app/auth/register   the form validation of handleRegister
    - [Room]      app/battle/room     the battle room screen and its pollers
    - [Lobby]     app/battle/lobby    the battle lobby screen and its poller

    Asynchronous code is embedded as event handlers: every callback the
    JavaScript event loop can run (an effect, an interval tick, the
    continuation of an awaited fetch, a timeout, a button press) is a
    function from the component state to the new state and the list of
    effects it performs on the outside world.  The first part of the file
    holds the definitions, module by module; the second part the lemmas. *)

From Stdlib Require Import ZArith Bool List Lia Ascii String DecimalString DecimalNat.
From stdpp Require Import base option list strings gmap.

Open Scope string_scope.
Open Scope list_scope.

(** ** JavaScript strings *)

Module JsString.
Local Open Scope Z_scope.

(** A JavaScript string is a sequence of UTF-16 code units; [length],
    [trim] and a regular expression without the [u] flag all work on code
    units. *)
Definition jsstring := list Z.

(** An ASCII literal as a JavaScript string. *)
Definition lit (s : string) : jsstring :=
  map (fun a => Z.of_N (Ascii.N_of_ascii a)) (String.list_ascii_of_string s).

(** WhiteSpace and LineTerminator of ECMAScript: what [trim] strips and
    what [\s] matches. *)
Definition isWhiteSpace (c : Z) : bool :=
  ((9 <=? c) && (c <=? 13))            (* TAB LF VT FF CR *)
  || (c =? 32) || (c =? 160)           (* SP NBSP *)
  || (c =? 5760)                       (* U+1680 *)
  || ((8192 <=? c) && (c <=? 8202))    (* U+2000 .. U+200A *)
  || (c =? 8232) || (c =? 8233)        (* LS PS *)
  || (c =? 8239) || (c =? 8287)        (* U+202F U+205F *)
  || (c =? 12288) || (c =? 65279).     (* U+3000 U+FEFF *)

Fixpoint trimStart (s : jsstring) : jsstring :=
  match s with
  | c :: s' => if isWhiteSpace c then trimStart s' else s
  | [] => []
  end.

Definition trimEnd (s : jsstring) : jsstring := rev (trimStart (rev s)).

Definition trim (s : jsstring) : jsstring := trimEnd (trimStart s).

(** [!s]: only the empty string is falsy. *)
Definition falsy (s : jsstring) : bool :=
  match s with [] => true | _ => false end.

Definition eqb (s t : jsstring) : bool := bool_decide (s = t).

End JsString.

(** ** Regular expressions, as far as the client uses them *)

Module Regex.
Import JsString.

Inductive regex :=
| Void
| Eps
| Class (p : Z -> bool)
| Seq (r1 r2 : regex)
| Alt (r1 r2 : regex)
| Star (r : regex).

(** [r+] *)
Definition Plus (r : regex) : regex := Seq r (Star r).

Fixpoint nullable (r : regex) : bool :=
  match r with
  | Void => false
  | Eps => true
  | Class _ => false
  | Seq r1 r2 => nullable r1 && nullable r2
  | Alt r1 r2 => nullable r1 || nullable r2
  | Star _ => true
  end.

(** The derivative of [r] by the code unit [c]. *)
Fixpoint deriv (c : Z) (r : regex) : regex :=
  match r with
  | Void => Void
  | Eps => Void
  | Class p => if p c then Eps else Void
  | Seq r1 r2 =>
      if nullable r1 then Alt (Seq (deriv c r1) r2) (deriv c r2)
      else Seq (deriv c r1) r2
  | Alt r1 r2 => Alt (deriv c r1) (deriv c r2)
  | Star r1 => Seq (deriv c r1) (Star r1)
  end.

(** [/^r$/.test(s)]: with both anchors and no [m] flag the whole string has
    to match. *)
Fixpoint test (r : regex) (s : jsstring) : bool :=
  match s with
  | [] => nullable r
  | c :: s' => test (deriv c r) s'
  end.

(** The words of a regular expression, for the correctness of [test]. *)
Inductive lang : regex -> jsstring -> Prop :=
| lang_eps : lang Eps []
| lang_class p c : p c = true -> lang (Class p) [c]
| lang_seq r1 r2 s1 s2 : lang r1 s1 -> lang r2 s2 -> lang (Seq r1 r2) (s1 ++ s2)
| lang_alt_l r1 r2 s : lang r1 s -> lang (Alt r1 r2) s
| lang_alt_r r1 r2 s : lang r2 s -> lang (Alt r1 r2) s
| lang_star_nil r : lang (Star r) []
| lang_star_cons r s1 s2 : lang r s1 -> lang (Star r) s2 -> lang (Star r) (s1 ++ s2).

End Regex.

(** ** The outside world: fetch, console, alerts, the router *)

Module Http.
Import JsString.

(** What [await fetch(...)] followed by [response.ok] and
    [await response.json()] can give the caller.  A body that is [None]
    stands for a [response.json()] that rejects.  The body of a non-OK
    response is only ever read for its optional [detail] field. *)
Inductive Response (A : Type) : Type :=
| FetchRejects (err : string)
| NotOk (body : option (option string))
| Ok (body : option A).

Arguments FetchRejects {A} err.
Arguments NotOk {A} body.
Arguments Ok {A} body.

Inductive Method := GET | POST.

(** A request as the client builds it: the path below [API_URL], the query
    parameters before [encodeURIComponent], and the bearer token of the
    [Authorization] header when the call sets one ([Some None] is the
    header built from a null token). *)
Record Request := mkRequest {
  method : Method;
  path : string;
  query : list (string * jsstring);
  bearer : option (option string);
}.

(** JavaScript's [detail || fallback] on an optional string: the empty
    string is falsy. *)
Definition or_default (detail : option string) (fallback : string) : string :=
  match detail with
  | Some d => if String.eqb d "" then fallback else d
  | None => fallback
  end.

(** The result of an [async] function: its promise resolves or rejects. *)
Inductive Outcome := Resolved | Rejected (message : string).

(** What a handler does to the world outside the component. [SetState]
    records the call of a React state setter, by the name of the state. *)
Inductive Effect :=
| Fetch (r : Request)
| ConsoleError (label : string)
| Alert (title message : string)
| RouterReplace (pathname : string) (params : list (string * string))
| SetState (name : string).

Definition is_fetch (e : Effect) : bool :=
  match e with Fetch _ => true | _ => false end.

Definition is_console_error (e : Effect) : bool :=
  match e with ConsoleError _ => true | _ => false end.

Definition is_alert (e : Effect) : bool :=
  match e with Alert _ _ => true | _ => false end.

Definition is_navigation (e : Effect) : bool :=
  match e with RouterReplace _ _ => true | _ => false end.

Definition is_set_state (e : Effect) : bool :=
  match e with SetState _ => true | _ => false end.

(** The requests of a list of effects that go to [p]. *)
Definition fetches_to (p : string) (fx : list Effect) : list Effect :=
  List.filter (fun e => match e with Fetch r => String.eqb (path r) p | _ => false end) fx.

(** A response that brought no data: the fetch or its body rejected, or
    the answer was not OK. *)
Definition failed {A} (r : Response A) : Prop :=
  match r with
  | Ok (Some _) => False
  | _ => True
  end.

(** The failures that land in a catch block. *)
Definition threw {A} (r : Response A) : bool :=
  match r with
  | FetchRejects _ | Ok None => true
  | _ => false
  end.

End Http.

(** ** lib/theme.ts *)

Module Theme.

Record Theme := mkTheme {
  background : string;
  surface : string;
  primary : string;
  primaryDark : string;
  text : string;
  textSecondary : string;
  border : string;
  error : string;
  success : string;
  warning : string;
  disabled : string;
}.

Definition lightTheme : Theme := {|
  background := "#f9fafb";
  surface := "#ffffff";
  primary := "#6366f1";
  primaryDark := "#4f46e5";
  text := "#111827";
  textSecondary := "#6b7280";
  border := "#e5e7eb";
  error := "#ef4444";
  success := "#10b981";
  warning := "#fbbf24";
  disabled := "#d1d5db";
|}.

Definition darkTheme : Theme := {|
  background := "#111827";
  surface := "#1f2937";
  primary := "#818cf8";
  primaryDark := "#6366f1";
  text := "#f9fafb";
  textSecondary := "#9ca3af";
  border := "#374151";
  error := "#f87171";
  success := "#34d399";
  warning := "#fbbf24";
  disabled := "#4b5563";
|}.

(** The data part of [ThemeState]; the two actions are the functions below. *)
Record ThemeState := mkThemeState {
  isDark : bool;
  theme : Theme;
}.

(** [create<ThemeState>((set) => ({ isDark: false, theme: lightTheme, ... }))] *)
Definition useThemeStore : ThemeState :=
  {| isDark := false; theme := lightTheme |}.

(** [set((state) => ({ isDark: !state.isDark,
                       theme: !state.isDark ? darkTheme : lightTheme }))] *)
Definition toggleTheme (state : ThemeState) : ThemeState :=
  {| isDark := negb (isDark state);
     theme := if negb (isDark state) then darkTheme else lightTheme |}.

(** [set({ isDark, theme: isDark ? darkTheme : lightTheme })] *)
Definition setTheme (isDark' : bool) (_ : ThemeState) : ThemeState :=
  {| isDark := isDark';
     theme := if isDark' then darkTheme else lightTheme |}.

(** The store invariant. *)
Definition theme_inv (s : ThemeState) : Prop :=
  theme s = if isDark s then darkTheme else lightTheme.

(** The operations a client of the store can perform. *)
Inductive action := ToggleTheme | SetTheme (isDark' : bool).

Definition apply (s : ThemeState) (a : action) : ThemeState :=
  match a with
  | ToggleTheme => toggleTheme s
  | SetTheme b => setTheme b s
  end.

(** States of the store: the initial one and whatever the actions lead to. *)
Inductive reachable : ThemeState -> Prop :=
| reach_init : reachable useThemeStore
| reach_step s a : reachable s -> reachable (apply s a).

End Theme.

(** ** lib/authStore.ts *)

Module Auth.
Import JsString Http.

Record User := mkUser {
  id : string;
  username : string;
  email : string;
}.

(** The data part of [AuthState]. *)
Record AuthState := mkAuthState {
  token : option string;
  user : option User;
  isLoading : bool;
}.

(** The payload of a successful /auth/login or /auth/register. *)
Record AuthData := mkAuthData {
  access_token : string;
  data_user : User;
}.

(** The store together with the device's AsyncStorage. *)
Record World := mkWorld {
  state : AuthState;
  asyncStorage : gmap string string;
}.

Definition useAuthStore : AuthState :=
  {| token := None; user := None; isLoading := true |}.

(** [set({ token: ..., user: ... })] merges into the state. *)
Definition set_token_user (t : option string) (u : option User) (s : AuthState) : AuthState :=
  {| token := t; user := u; isLoading := isLoading s |}.

Definition set_isLoading (b : bool) (s : AuthState) : AuthState :=
  {| token := token s; user := user s; isLoading := b |}.

Definition set_all (t : option string) (u : option User) (b : bool) (_ : AuthState) : AuthState :=
  {| token := t; user := u; isLoading := b |}.

(** The message of the error of a rejecting [response.json()]. *)
Definition json_error : string := "JSON Parse error".
(** The message of the error of a rejecting AsyncStorage call. *)
Definition storage_error : string := "AsyncStorage error".

(** The common body of [login] and [register]: they differ in the request,
    the fallback message and the console label only.  [setItem_ok] says
    whether [AsyncStorage.setItem] resolves. *)
Definition authenticate (req : Request) (fallback label : string)
    (resp : Response AuthData) (setItem_ok : bool) (w : World)
  : World * list Effect * Outcome :=
  match resp with
  | FetchRejects e => (w, [Fetch req; ConsoleError label], Rejected e)
  | NotOk None => (w, [Fetch req; ConsoleError label], Rejected json_error)
  | NotOk (Some detail) =>
      (w, [Fetch req; ConsoleError label], Rejected (or_default detail fallback))
  | Ok None => (w, [Fetch req; ConsoleError label], Rejected json_error)
  | Ok (Some data) =>
      if setItem_ok then
        ({| state := set_token_user (Some (access_token data)) (Some (data_user data)) (state w);
            asyncStorage := <["auth_token" := access_token data]> (asyncStorage w) |},
         [Fetch req], Resolved)
      else (w, [Fetch req; ConsoleError label], Rejected storage_error)
  end.

(** The payload of a call that goes through: an OK response with a body
    and a [setItem] that resolves. *)
Definition succeeds (resp : Response AuthData) (setItem_ok : bool) : option AuthData :=
  match resp with
  | Ok (Some data) => if setItem_ok then Some data else None
  | _ => None
  end.

(** The world after a call that went through with [data]. *)
Definition signed_in (data : AuthData) (w : World) : World :=
  {| state := set_token_user (Some (access_token data)) (Some (data_user data)) (state w);
     asyncStorage := <["auth_token" := access_token data]> (asyncStorage w) |}.

Definition login_request (username password : jsstring) : Request :=
  {| method := POST; path := "/auth/login";
     query := [("username", username); ("password", password)];
     bearer := None |}.

Definition register_request (username email password : jsstring) : Request :=
  {| method := POST; path := "/auth/register";
     query := [("username", username); ("email", email); ("password", password)];
     bearer := None |}.

Definition login (username password : jsstring) :=
  authenticate (login_request username password) "Login failed" "Login error:".

Definition register (username email password : jsstring) :=
  authenticate (register_request username email password)
    "Registration failed" "Registration error:".

(** [logout]: the state is cleared only after [removeItem] resolved. *)
Definition logout (removeItem_ok : bool) (w : World) : World * Outcome :=
  if removeItem_ok then
    ({| state := set_token_user None None (state w);
        asyncStorage := delete "auth_token" (asyncStorage w) |}, Resolved)
  else (w, Rejected storage_error).

Definition setToken (t : option string) (w : World) : World :=
  {| state := {| token := t; user := user (state w); isLoading := isLoading (state w) |};
     asyncStorage := asyncStorage w |}.

Definition me_request (t : string) : Request :=
  {| method := GET; path := "/auth/me"; query := []; bearer := Some (Some t) |}.

(** JavaScript's [if (token)] on the result of [getItem]: a missing item and
    the empty string are both falsy. *)
Definition truthy_item (o : option string) : option string :=
  match o with
  | Some t => if String.eqb t "" then None else Some t
  | None => None
  end.

(** [loadToken] never rejects: every failure lands in its catch block, which
    logs and clears [isLoading]; without a stored token [isLoading] is
    cleared and nothing else happens.  [getItem_ok] and [removeItem_ok] say
    whether the AsyncStorage calls resolve. *)
Definition loadToken (getItem_ok : bool) (me : Response User) (removeItem_ok : bool)
    (w : World) : World * list Effect :=
  let settled := {| state := set_isLoading false (state w); asyncStorage := asyncStorage w |} in
  if negb getItem_ok then (settled, [ConsoleError "Load token error:"])
  else
    match truthy_item (asyncStorage w !! "auth_token") with
    | None => (settled, [])
    | Some t =>
        match me with
        | FetchRejects _ => (settled, [Fetch (me_request t); ConsoleError "Load token error:"])
        | Ok None => (settled, [Fetch (me_request t); ConsoleError "Load token error:"])
        | Ok (Some u) =>
            ({| state := set_all (Some t) (Some u) false (state w);
                asyncStorage := asyncStorage w |}, [Fetch (me_request t)])
        | NotOk _ =>
            if removeItem_ok then
              ({| state := set_all None None false (state w);
                  asyncStorage := delete "auth_token" (asyncStorage w) |},
               [Fetch (me_request t)])
            else (settled, [Fetch (me_request t); ConsoleError "Load token error:"])
        end
    end.

(** The three ways [loadToken] can leave the world. *)
Definition restored (t : string) (u : User) (w : World) : World :=
  {| state := {| token := Some t; user := Some u; isLoading := false |};
     asyncStorage := asyncStorage w |}.

Definition signed_out (w : World) : World :=
  {| state := {| token := None; user := None; isLoading := false |};
     asyncStorage := delete "auth_token" (asyncStorage w) |}.

Definition loaded (w : World) : World :=
  {| state := set_isLoading false (state w); asyncStorage := asyncStorage w |}.

(** Sample worlds: a device with a stored token and a fresh store, and a
    signed-in store on a device without stored token. *)
Definition sample_user : User :=
  {| id := "u1"; username := "ann"; email := "ann@mail.org" |}.

Definition device_with_token : World :=
  {| state := useAuthStore; asyncStorage := {["auth_token" := "tok"]} |}.

Definition fresh_device : World :=
  {| state := useAuthStore; asyncStorage := ∅ |}.

End Auth.

(** ** app/auth/register.tsx *)

Module Register.
Import JsString Regex Http.
Local Open Scope Z_scope.


(** [[^\s@]] *)
Definition notSpaceAt (c : Z) : bool := negb (isWhiteSpace c || (c =? 64)).

(** [/^[^\s@]+@[^\s@]+\.[^\s@]+$/] *)
Definition emailRegex : regex :=
  Seq (Plus (Class notSpaceAt))
    (Seq (Class (Z.eqb 64))
      (Seq (Plus (Class notSpaceAt))
        (Seq (Class (Z.eqb 46))
          (Plus (Class notSpaceAt))))).


Definition valid_email (s : jsstring) : Prop := test emailRegex s = true.




End Register.

(** ** app/battle/room.tsx *)

Module Room.
Import Http.

Inductive SegmentKind := opening | rebuttal | closing.

(** [Record<SegmentKind, boolean>].  The screen also builds [{}] at that
    type for a player who has not joined, so each key may be missing. *)
Record Segments := mkSegments {
  seg_opening : option bool;
  seg_rebuttal : option bool;
  seg_closing : option bool;
}.

(** [{} as Record<SegmentKind, boolean>] *)
Definition no_segments : Segments :=
  {| seg_opening := None; seg_rebuttal := None; seg_closing := None |}.

(** [segments[kind]] *)
Definition get (s : Segments) (k : SegmentKind) : option bool :=
  match k with
  | opening => seg_opening s
  | rebuttal => seg_rebuttal s
  | closing => seg_closing s
  end.

(** [Object.values(segments)]: the values of the keys that are there. *)
Definition Object_values (s : Segments) : list bool :=
  omap (get s) [opening; rebuttal; closing].

Record Topic := mkTopic {
  topic_id : Z;
  title : string;
  description : string;
}.

Record Player := mkPlayer {
  id : string;
  username : string;
  stance : string;
  segments : Segments;
}.

(** The judgment the server attaches to a completed battle: an object,
    kept here as the text [JSON.stringify] gives for it.  A battle without
    judgment carries null, [None] below. *)
Record Judgment := mkJudgment { json : string }.

Record BattleStatus := mkBattleStatus {
  battle_id : string;
  status : string;
  current_turn : string;
  current_segment : SegmentKind;
  topic : Topic;
  player1 : Player;
  player2 : option Player;
  is_your_turn : bool;
  winner_id : option string;
  judgment : option Judgment;
}.

Record SegmentData := mkSegmentData {
  kind : SegmentKind;
  transcript : string;
  player_id : string;
}.

(** What the screen reads from its route and from the auth store. *)
Record Props := mkProps {
  battleId : string;
  token : option string;
  currentUserId : option string;
}.

(** The life of a component instance: not yet mounted, mounted, unmounted. *)
Inductive Phase := Fresh | Live | Gone.

(** The component: its React state, its [isMounted] ref, and what the
    event loop holds for it: the two intervals (with their periods in
    milliseconds), the fetches awaiting their response and the pending
    navigation timeouts, each closed over the judgment of its response. *)
Record Screen := mkScreen {
  battleStatus : option BattleStatus;
  opponentTranscripts : list SegmentData;
  isJudging : bool;
  loading : bool;
  isMounted : bool;
  phase : Phase;
  statusInterval : option Z;
  segmentsInterval : option Z;
  statusInFlight : nat;
  segmentsInFlight : nat;
  judgeInFlight : nat;
  navTimers : list Judgment;
}.

Definition set_battleStatus (v : option BattleStatus) (s : Screen) : Screen :=
  {| battleStatus := v; opponentTranscripts := opponentTranscripts s; isJudging := isJudging s; loading := loading s; isMounted := isMounted s; phase := phase s; statusInterval := statusInterval s; segmentsInterval := segmentsInterval s; statusInFlight := statusInFlight s; segmentsInFlight := segmentsInFlight s; judgeInFlight := judgeInFlight s; navTimers := navTimers s |}.

Definition set_opponentTranscripts (v : list SegmentData) (s : Screen) : Screen :=
  {| battleStatus := battleStatus s; opponentTranscripts := v; isJudging := isJudging s; loading := loading s; isMounted := isMounted s; phase := phase s; statusInterval := statusInterval s; segmentsInterval := segmentsInterval s; statusInFlight := statusInFlight s; segmentsInFlight := segmentsInFlight s; judgeInFlight := judgeInFlight s; navTimers := navTimers s |}.

Definition set_isJudging (v : bool) (s : Screen) : Screen :=
  {| battleStatus := battleStatus s; opponentTranscripts := opponentTranscripts s; isJudging := v; loading := loading s; isMounted := isMounted s; phase := phase s; statusInterval := statusInterval s; segmentsInterval := segmentsInterval s; statusInFlight := statusInFlight s; segmentsInFlight := segmentsInFlight s; judgeInFlight := judgeInFlight s; navTimers := navTimers s |}.

Definition set_loading (v : bool) (s : Screen) : Screen :=
  {| battleStatus := battleStatus s; opponentTranscripts := opponentTranscripts s; isJudging := isJudging s; loading := v; isMounted := isMounted s; phase := phase s; statusInterval := statusInterval s; segmentsInterval := segmentsInterval s; statusInFlight := statusInFlight s; segmentsInFlight := segmentsInFlight s; judgeInFlight := judgeInFlight s; navTimers := navTimers s |}.

Definition set_isMounted (v : bool) (s : Screen) : Screen :=
  {| battleStatus := battleStatus s; opponentTranscripts := opponentTranscripts s; isJudging := isJudging s; loading := loading s; isMounted := v; phase := phase s; statusInterval := statusInterval s; segmentsInterval := segmentsInterval s; statusInFlight := statusInFlight s; segmentsInFlight := segmentsInFlight s; judgeInFlight := judgeInFlight s; navTimers := navTimers s |}.

Definition set_phase (v : Phase) (s : Screen) : Screen :=
  {| battleStatus := battleStatus s; opponentTranscripts := opponentTranscripts s; isJudging := isJudging s; loading := loading s; isMounted := isMounted s; phase := v; statusInterval := statusInterval s; segmentsInterval := segmentsInterval s; statusInFlight := statusInFlight s; segmentsInFlight := segmentsInFlight s; judgeInFlight := judgeInFlight s; navTimers := navTimers s |}.

Definition set_statusInterval (v : option Z) (s : Screen) : Screen :=
  {| battleStatus := battleStatus s; opponentTranscripts := opponentTranscripts s; isJudging := isJudging s; loading := loading s; isMounted := isMounted s; phase := phase s; statusInterval := v; segmentsInterval := segmentsInterval s; statusInFlight := statusInFlight s; segmentsInFlight := segmentsInFlight s; judgeInFlight := judgeInFlight s; navTimers := navTimers s |}.

Definition set_segmentsInterval (v : option Z) (s : Screen) : Screen :=
  {| battleStatus := battleStatus s; opponentTranscripts := opponentTranscripts s; isJudging := isJudging s; loading := loading s; isMounted := isMounted s; phase := phase s; statusInterval := statusInterval s; segmentsInterval := v; statusInFlight := statusInFlight s; segmentsInFlight := segmentsInFlight s; judgeInFlight := judgeInFlight s; navTimers := navTimers s |}.

Definition set_statusInFlight (v : nat) (s : Screen) : Screen :=
  {| battleStatus := battleStatus s; opponentTranscripts := opponentTranscripts s; isJudging := isJudging s; loading := loading s; isMounted := isMounted s; phase := phase s; statusInterval := statusInterval s; segmentsInterval := segmentsInterval s; statusInFlight := v; segmentsInFlight := segmentsInFlight s; judgeInFlight := judgeInFlight s; navTimers := navTimers s |}.

Definition set_segmentsInFlight (v : nat) (s : Screen) : Screen :=
  {| battleStatus := battleStatus s; opponentTranscripts := opponentTranscripts s; isJudging := isJudging s; loading := loading s; isMounted := isMounted s; phase := phase s; statusInterval := statusInterval s; segmentsInterval := segmentsInterval s; statusInFlight := statusInFlight s; segmentsInFlight := v; judgeInFlight := judgeInFlight s; navTimers := navTimers s |}.

Definition set_judgeInFlight (v : nat) (s : Screen) : Screen :=
  {| battleStatus := battleStatus s; opponentTranscripts := opponentTranscripts s; isJudging := isJudging s; loading := loading s; isMounted := isMounted s; phase := phase s; statusInterval := statusInterval s; segmentsInterval := segmentsInterval s; statusInFlight := statusInFlight s; segmentsInFlight := segmentsInFlight s; judgeInFlight := v; navTimers := navTimers s |}.

Definition set_navTimers (v : list Judgment) (s : Screen) : Screen :=
  {| battleStatus := battleStatus s; opponentTranscripts := opponentTranscripts s; isJudging := isJudging s; loading := loading s; isMounted := isMounted s; phase := phase s; statusInterval := statusInterval s; segmentsInterval := segmentsInterval s; statusInFlight := statusInFlight s; segmentsInFlight := segmentsInFlight s; judgeInFlight := judgeInFlight s; navTimers := v |}.

(** The component before its first effect ran. *)
Definition initial : Screen := {|
  battleStatus := None;
  opponentTranscripts := [];
  isJudging := false;
  loading := true;
  isMounted := false;
  phase := Fresh;
  statusInterval := None;
  segmentsInterval := None;
  statusInFlight := 0;
  segmentsInFlight := 0;
  judgeInFlight := 0;
  navTimers := [];
|}.

Definition status_request (p : Props) : Request :=
  {| method := GET; path := "/battle/" +:+ battleId p +:+ "/status";
     query := []; bearer := Some (token p) |}.

Definition segments_request (p : Props) : Request :=
  {| method := GET; path := "/battle/" +:+ battleId p +:+ "/segments";
     query := []; bearer := Some (token p) |}.

Definition judge_request (p : Props) : Request :=
  {| method := POST; path := "/battle/" +:+ battleId p +:+ "/judge";
     query := []; bearer := Some (token p) |}.

(** [routerInstance.replace({ pathname: '/battle/results', params: ... })] *)
Definition results_navigation (p : Props) (j : Judgment) : Effect :=
  RouterReplace "/battle/results" [("battleId", battleId p); ("judgmentData", json j)].

(** *** The effects of the component *)

(** The three effects at mount: the ref, the status poller (first call and
    2000 ms interval), and the segments effect, which finds [battleStatus]
    null on the first render and does nothing. *)
Definition fetchBattleStatus (p : Props) (s : Screen) : Screen * list Effect :=
  (set_statusInFlight (S (statusInFlight s)) s, [Fetch (status_request p)]).

Definition fetchOpponentSegments (p : Props) (s : Screen) : Screen * list Effect :=
  (set_segmentsInFlight (S (segmentsInFlight s)) s, [Fetch (segments_request p)]).

Definition mount (p : Props) (s : Screen) : Screen * list Effect :=
  let s := set_phase Live (set_isMounted true s) in
  let '(s, fx) := fetchBattleStatus p s in
  (set_statusInterval (Some 2000%Z) s, fx).

(** The cleanups at unmount: [isMounted.current = false] and the two
    [clearInterval]. *)
Definition unmount (s : Screen) : Screen :=
  set_phase Gone (set_segmentsInterval None (set_statusInterval None (set_isMounted false s))).

(** The effect on [[battleStatus]], as React runs it after a render in
    which [battleStatus] changed: the cleanup of the previous run, then the
    body. *)
Definition battleStatus_effect (p : Props) (s : Screen) : Screen * list Effect :=
  let s := set_segmentsInterval None s in
  match battleStatus s with
  | Some bs =>
      if String.eqb (status bs) "in_progress" then
        let '(s, fx) := fetchOpponentSegments p s in
        (set_segmentsInterval (Some 3000%Z) s, fx)
      else (s, [])
  | None => (s, [])
  end.

(** *** The continuations of the fetches *)

(** [fetchBattleStatus] after its [await]s.  [setBattleStatus] is called
    with a fresh object, so a mounted component renders again and runs the
    [[battleStatus]] effect; an unmounted one renders no more. *)
Definition fetchBattleStatus_resume (p : Props) (r : Response BattleStatus) (s : Screen)
  : Screen * list Effect :=
  match r with
  | Ok (Some data) =>
      let s := set_battleStatus (Some data) s in
      let s :=
        match judgment data with
        | Some j =>
            if String.eqb (status data) "completed" && isMounted s
            then set_navTimers (navTimers s ++ [j]) s
            else s
        | None => s
        end in
      let s := set_loading false s in
      let '(s, fx) :=
        match phase s with
        | Live => battleStatus_effect p s
        | _ => (s, [])
        end in
      (s, [SetState "battleStatus"; SetState "loading"] ++ fx)
  | NotOk _ => (set_loading false s, [SetState "loading"])
  | FetchRejects _ | Ok None =>
      (set_loading false s,
       [ConsoleError "Failed to fetch battle status:"; SetState "loading"])
  end.

(** The callback of [setTimeout(..., 100)]. *)
Definition navigation_timeout (p : Props) (j : Judgment) (s : Screen) : list Effect :=
  if isMounted s then [results_navigation p j] else [].

(** [seg.player_id !== currentUserId] *)
Definition not_mine (p : Props) (seg : SegmentData) : bool :=
  negb (bool_decide (Some (player_id seg) = currentUserId p)).

Definition fetchOpponentSegments_resume (p : Props) (r : Response (list SegmentData))
    (s : Screen) : Screen * list Effect :=
  match r with
  | Ok (Some segments) =>
      let opponentSegs := List.filter (not_mine p) segments in
      (set_opponentTranscripts opponentSegs s, [SetState "opponentTranscripts"])
  | NotOk _ => (s, [])
  | FetchRejects _ | Ok None =>
      (s, [ConsoleError "Failed to fetch opponent segments:"])
  end.

Definition requestJudgment (p : Props) (s : Screen) : Screen * list Effect :=
  (set_judgeInFlight (S (judgeInFlight s)) (set_isJudging true s),
   [SetState "isJudging"; Fetch (judge_request p)]).

Definition requestJudgment_resume (r : Response unit) (s : Screen) : Screen * list Effect :=
  (set_isJudging false s,
   match r with
   | Ok _ =>
       [Alert "Success" "AI is analyzing the debate. Results will appear shortly..."]
   | NotOk (Some detail) => [Alert "Error" (or_default detail "Failed to judge battle")]
   | NotOk None | FetchRejects _ =>
       [ConsoleError "Failed to judge battle:"; Alert "Error" "Failed to judge battle"]
   end ++ [SetState "isJudging"]).

(** *** Rendering *)

(** [Boolean] applied to a boolean. *)
Definition Boolean (b : bool) : bool := b.

(** [Object.values(segments).filter(Boolean).length === 3] *)
Definition three_truthy (s : Segments) : bool :=
  Nat.eqb (length (List.filter Boolean (Object_values s))) 3.

(** [battleStatus.player2?.segments || {}] *)
Definition player2_segments (bs : BattleStatus) : Segments :=
  match player2 bs with
  | Some q => segments q
  | None => no_segments
  end.

Definition isPlayer1 (p : Props) (bs : BattleStatus) : bool :=
  bool_decide (currentUserId p = Some (id (player1 bs))).

Definition mySegments (p : Props) (bs : BattleStatus) : Segments :=
  if isPlayer1 p bs then segments (player1 bs) else player2_segments bs.

Definition opponentSegments (p : Props) (bs : BattleStatus) : Segments :=
  if isPlayer1 p bs then player2_segments bs else segments (player1 bs).

Definition allSegmentsComplete (p : Props) (bs : BattleStatus) : bool :=
  three_truthy (mySegments p bs) && three_truthy (opponentSegments p bs).

(** What the render puts on the screen, as far as the conditions of the
    JSX go. *)
Record View := mkView {
  loadingShown : bool;
  waitingShown : bool;
  inputShown : bool;
  transcriptsShown : bool;
  judgeShown : bool;
  judgeDisabled : bool;
}.

Definition loading_view : View :=
  {| loadingShown := true; waitingShown := false; inputShown := false;
     transcriptsShown := false; judgeShown := false; judgeDisabled := false |}.

Definition render (p : Props) (s : Screen) : View :=
  match battleStatus s with
  | Some bs =>
      if loading s then loading_view
      else
        {| loadingShown := false;
           waitingShown := match player2 bs with Some _ => false | None => true end;
           inputShown := negb (allSegmentsComplete p bs);
           transcriptsShown := negb (Nat.eqb (length (opponentTranscripts s)) 0);
           judgeShown := allSegmentsComplete p bs;
           judgeDisabled := isJudging s |}
  | None => loading_view
  end.

(** *** The event loop *)

Inductive Event :=
| Mount
| Unmount
| StatusTick
| StatusResponse (r : Response BattleStatus)
| NavigationTimeout
| SegmentsTick
| SegmentsResponse (r : Response (list SegmentData))
| PressJudge
| JudgeResponse (r : Response unit).

(** One turn of the event loop; [None] when the event cannot happen in
    [s]: a tick without its interval, a response nobody waits for, a press
    on a button that is not there or is disabled. *)
Definition step (p : Props) (s : Screen) (e : Event) : option (Screen * list Effect) :=
  match e with
  | Mount =>
      match phase s with Fresh => Some (mount p s) | _ => None end
  | Unmount =>
      match phase s with Live => Some (unmount s, []) | _ => None end
  | StatusTick =>
      match statusInterval s with
      | Some _ => Some (fetchBattleStatus p s)
      | None => None
      end
  | StatusResponse r =>
      match statusInFlight s with
      | S n => Some (fetchBattleStatus_resume p r (set_statusInFlight n s))
      | O => None
      end
  | NavigationTimeout =>
      match navTimers s with
      | j :: rest => Some (set_navTimers rest s, navigation_timeout p j s)
      | [] => None
      end
  | SegmentsTick =>
      match segmentsInterval s with
      | Some _ => Some (fetchOpponentSegments p s)
      | None => None
      end
  | SegmentsResponse r =>
      match segmentsInFlight s with
      | S n => Some (fetchOpponentSegments_resume p r (set_segmentsInFlight n s))
      | O => None
      end
  | PressJudge =>
      match phase s with
      | Live =>
          if judgeShown (render p s) && negb (judgeDisabled (render p s))
          then Some (requestJudgment p s) else None
      | _ => None
      end
  | JudgeResponse r =>
      match judgeInFlight s with
      | S n => Some (requestJudgment_resume r (set_judgeInFlight n s))
      | O => None
      end
  end.

(** A run of the event loop, with the effects in the order they happen. *)
Fixpoint run (p : Props) (s : Screen) (es : list Event) : option (Screen * list Effect) :=
  match es with
  | [] => Some (s, [])
  | e :: es' =>
      match step p s e with
      | Some (s', fx) =>
          match run p s' es' with
          | Some (s'', fx') => Some (s'', fx ++ fx')
          | None => None
          end
      | None => None
      end
  end.



(** *** What the lemmas speak about *)

(** The states the loop keeps to: the ref follows the life of the
    component, the status interval runs exactly while mounted, the segments
    interval only while mounted with an in_progress battle stored, and
    [isJudging] is set exactly while a judge request is out. *)
Definition in_progress (s : Screen) : Prop :=
  exists bs, battleStatus s = Some bs /\ status bs = "in_progress".

Record wf (p : Props) (s : Screen) : Prop := mkWf {
  wf_mounted : isMounted s = true <-> phase s = Live;
  wf_status : statusInterval s = if isMounted s then Some 2000%Z else None;
  wf_segments : forall d, segmentsInterval s = Some d ->
                  d = 3000%Z /\ isMounted s = true /\ in_progress s;
  wf_judging : judgeInFlight s = if isJudging s then 1 else 0;
  wf_loaded : battleStatus s <> None -> loading s = false;
  wf_fresh : phase s = Fresh -> s = initial;
  wf_opponent : Forall (fun seg => Some (player_id seg) <> currentUserId p)
                  (opponentTranscripts s);
}.

(** An unmounted component. *)
Definition gone (s : Screen) : Prop :=
  phase s = Gone /\ isMounted s = false /\
  statusInterval s = None /\ segmentsInterval s = None.

(** What the event loop still holds for the component: the responses it
    waits for and the timeouts it has scheduled. *)
Definition pending (s : Screen) : nat :=
  statusInFlight s + segmentsInFlight s + judgeInFlight s + length (navTimers s).

(** The navigations among the effects of a run. *)
Definition nav_count (fx : list Effect) : nat :=
  length (List.filter is_navigation fx).



(** All three kinds marked as submitted. *)
Definition all_submitted (s : Segments) : Prop :=
  forall k, get s k = Some true.

Definition both_all_submitted (bs : BattleStatus) : Prop :=
  all_submitted (segments (player1 bs)) /\
  exists q, player2 bs = Some q /\ all_submitted (segments q).

(** *** Sample data *)

Definition done3 : Segments :=
  {| seg_opening := Some true; seg_rebuttal := Some true; seg_closing := Some true |}.

Definition none3 : Segments :=
  {| seg_opening := Some false; seg_rebuttal := Some false; seg_closing := Some false |}.

Definition sample_props : Props :=
  {| battleId := "b7"; token := Some "tok"; currentUserId := Some "u1" |}.

Definition sample_topic : Topic :=
  {| topic_id := 3; title := "School uniforms"; description := "Should they be required?" |}.

Definition sample_judgment : Judgment := {| json := "{}" |}.

Definition sample_status (st : string) (segs : Segments) (q : option Player)
    (j : option Judgment) : BattleStatus :=
  {| battle_id := "b7"; status := st; current_turn := "u1"; current_segment := opening;
     topic := sample_topic;
     player1 := {| id := "u1"; username := "ann"; stance := "pro"; segments := segs |};
     player2 := q;
     is_your_turn := true; winner_id := None; judgment := j |}.

Definition bob (segs : Segments) : Player :=
  {| id := "u2"; username := "bob"; stance := "con"; segments := segs |}.

Definition status_debating : BattleStatus :=
  sample_status "in_progress" none3 (Some (bob none3)) None.
Definition status_ready : BattleStatus :=
  sample_status "in_progress" done3 (Some (bob done3)) None.
Definition status_judged : BattleStatus :=
  sample_status "completed" done3 (Some (bob done3)) (Some sample_judgment).

Definition sample_segments : list SegmentData :=
  [ {| kind := opening; transcript := "We should."; player_id := "u1" |};
    {| kind := opening; transcript := "We should not."; player_id := "u2" |} ].


(** A second press on the judge button after the first request succeeded,
    before any poll has seen the battle completed. *)
Definition judge_twice : list Event :=
  [Mount; StatusResponse (Ok (Some status_ready));
   PressJudge; JudgeResponse (Ok None); PressJudge].


(** A status poll that the server refuses. *)
Definition refused_poll : list Event :=
  [Mount; StatusResponse (NotOk None)].


(** The screen once the last segment is in. *)
Definition ready_to_judge : list Event :=
  [Mount; StatusResponse (Ok (Some status_ready))].

(** An ordinary visit: the battle is in progress, segments are polled, the
    battle is judged and the screen navigates. *)
Definition ordinary_visit : list Event :=
  [Mount; StatusResponse (Ok (Some status_debating));
   SegmentsResponse (Ok (Some sample_segments)); SegmentsTick;
   StatusTick; StatusResponse (Ok (Some status_judged));
   NavigationTimeout].

End Room.

(** ** app/battle/lobby.tsx *)

(** The lobby as far as it polls: the two mount effects, [loadBattles] and
    [loadTopics].  [createBattle] and [joinBattle] answer presses and take no
    part in the polling. *)
Module Lobby.
Import Http.

Record BattleTopic := mkBattleTopic {
  bt_id : Z;
  bt_title : string;
  bt_difficulty : string;
}.

Record Creator := mkCreator {
  username : string;
  stance : string;
}.

Record Battle := mkBattle {
  battle_id : string;
  topic : BattleTopic;
  player1 : Creator;
  created_at : string;
}.

Record Topic := mkTopic {
  id : Z;
  title : string;
  description : string;
  difficulty : string;
  category : string;
}.

Record Props := mkProps { token : option string }.

Inductive Phase := Fresh | Live | Gone.

Record Screen := mkScreen {
  battles : list Battle;
  topics : list Topic;
  isLoading : bool;
  isMounted : bool;
  phase : Phase;
  interval : option Z;
  battlesInFlight : nat;
  topicsInFlight : nat;
}.

Definition set_battles (v : list Battle) (s : Screen) : Screen :=
  {| battles := v; topics := topics s; isLoading := isLoading s; isMounted := isMounted s; phase := phase s; interval := interval s; battlesInFlight := battlesInFlight s; topicsInFlight := topicsInFlight s |}.

Definition set_topics (v : list Topic) (s : Screen) : Screen :=
  {| battles := battles s; topics := v; isLoading := isLoading s; isMounted := isMounted s; phase := phase s; interval := interval s; battlesInFlight := battlesInFlight s; topicsInFlight := topicsInFlight s |}.

Definition set_isLoading (v : bool) (s : Screen) : Screen :=
  {| battles := battles s; topics := topics s; isLoading := v; isMounted := isMounted s; phase := phase s; interval := interval s; battlesInFlight := battlesInFlight s; topicsInFlight := topicsInFlight s |}.

Definition set_isMounted (v : bool) (s : Screen) : Screen :=
  {| battles := battles s; topics := topics s; isLoading := isLoading s; isMounted := v; phase := phase s; interval := interval s; battlesInFlight := battlesInFlight s; topicsInFlight := topicsInFlight s |}.

Definition set_phase (v : Phase) (s : Screen) : Screen :=
  {| battles := battles s; topics := topics s; isLoading := isLoading s; isMounted := isMounted s; phase := v; interval := interval s; battlesInFlight := battlesInFlight s; topicsInFlight := topicsInFlight s |}.

Definition set_interval (v : option Z) (s : Screen) : Screen :=
  {| battles := battles s; topics := topics s; isLoading := isLoading s; isMounted := isMounted s; phase := phase s; interval := v; battlesInFlight := battlesInFlight s; topicsInFlight := topicsInFlight s |}.

Definition set_battlesInFlight (v : nat) (s : Screen) : Screen :=
  {| battles := battles s; topics := topics s; isLoading := isLoading s; isMounted := isMounted s; phase := phase s; interval := interval s; battlesInFlight := v; topicsInFlight := topicsInFlight s |}.

Definition set_topicsInFlight (v : nat) (s : Screen) : Screen :=
  {| battles := battles s; topics := topics s; isLoading := isLoading s; isMounted := isMounted s; phase := phase s; interval := interval s; battlesInFlight := battlesInFlight s; topicsInFlight := v |}.

Definition initial : Screen := {|
  battles := [];
  topics := [];
  isLoading := true;
  isMounted := false;
  phase := Fresh;
  interval := None;
  battlesInFlight := 0;
  topicsInFlight := 0;
|}.

Definition available_request (p : Props) : Request :=
  {| method := GET; path := "/battle/available"; query := []; bearer := Some (token p) |}.

Definition topics_request (p : Props) : Request :=
  {| method := GET; path := "/topics"; query := []; bearer := Some (token p) |}.

(** [!token]: null and the empty string are falsy. *)
Definition no_token (p : Props) : bool :=
  match token p with
  | Some t => String.eqb t ""
  | None => true
  end.

Definition loadBattles (p : Props) (s : Screen) : Screen * list Effect :=
  (set_battlesInFlight (S (battlesInFlight s)) s, [Fetch (available_request p)]).

Definition loadTopics (p : Props) (s : Screen) : Screen * list Effect :=
  (set_topicsInFlight (S (topicsInFlight s)) s, [Fetch (topics_request p)]).

(** The two effects at mount.  Without a token the second one redirects to
    the login screen and returns before it polls. *)
Definition mount (p : Props) (s : Screen) : Screen * list Effect :=
  let s := set_phase Live (set_isMounted true s) in
  if no_token p then (s, [RouterReplace "/auth/login" []])
  else
    let '(s, fx1) := loadBattles p s in
    let '(s, fx2) := loadTopics p s in
    (set_interval (Some 3000%Z) s, fx1 ++ fx2).

(** The cleanups at unmount. *)
Definition unmount (s : Screen) : Screen :=
  set_phase Gone (set_interval None (set_isMounted false s)).

Definition loadBattles_resume (r : Response (list Battle)) (s : Screen)
  : Screen * list Effect :=
  match r with
  | Ok (Some data) =>
      (set_isLoading false (set_battles data s), [SetState "battles"; SetState "isLoading"])
  | NotOk _ => (set_isLoading false s, [SetState "isLoading"])
  | FetchRejects _ | Ok None =>
      (set_isLoading false s, [ConsoleError "Failed to load battles:"; SetState "isLoading"])
  end.

Definition loadTopics_resume (r : Response (list Topic)) (s : Screen)
  : Screen * list Effect :=
  match r with
  | Ok (Some data) => (set_topics data s, [SetState "topics"])
  | NotOk _ => (s, [])
  | FetchRejects _ | Ok None => (s, [ConsoleError "Failed to load topics:"])
  end.

Inductive Event :=
| Mount
| Unmount
| Tick
| BattlesResponse (r : Response (list Battle))
| TopicsResponse (r : Response (list Topic)).

Definition step (p : Props) (s : Screen) (e : Event) : option (Screen * list Effect) :=
  match e with
  | Mount =>
      match phase s with Fresh => Some (mount p s) | _ => None end
  | Unmount =>
      match phase s with Live => Some (unmount s, []) | _ => None end
  | Tick =>
      match interval s with
      | Some _ => Some (loadBattles p s)
      | None => None
      end
  | BattlesResponse r =>
      match battlesInFlight s with
      | S n => Some (loadBattles_resume r (set_battlesInFlight n s))
      | O => None
      end
  | TopicsResponse r =>
      match topicsInFlight s with
      | S n => Some (loadTopics_resume r (set_topicsInFlight n s))
      | O => None
      end
  end.

Fixpoint run (p : Props) (s : Screen) (es : list Event) : option (Screen * list Effect) :=
  match es with
  | [] => Some (s, [])
  | e :: es' =>
      match step p s e with
      | Some (s', fx) =>
          match run p s' es' with
          | Some (s'', fx') => Some (s'', fx ++ fx')
          | None => None
          end
      | None => None
      end
  end.

(** The states the loop keeps to. *)
Record wf (p : Props) (s : Screen) : Prop := mkWf {
  wf_mounted : isMounted s = true <-> phase s = Live;
  wf_interval : forall d, interval s = Some d ->
                  d = 3000%Z /\ phase s = Live /\ no_token p = false;
  wf_polling : phase s = Live -> no_token p = false -> interval s = Some 3000%Z;
  wf_fresh : phase s = Fresh -> s = initial;
}.

Definition gone (s : Screen) : Prop :=
  phase s = Gone /\ isMounted s = false /\ interval s = None.

Definition pending (s : Screen) : nat := battlesInFlight s + topicsInFlight s.

(** Sample data. *)
Definition sample_props : Props := {| token := Some "tok" |}.



End Lobby.

(** ** app/auth/login.tsx *)

Module Login.
Import JsString Http.


End Login.

(** ** app/index.tsx *)

Module Index.
Import Http.

(** The mount effect of [IndexScreen]: [loadToken().then(...)]. The
    callback reads the [token] that the component destructured from the
    store in the render the effect belongs to, the first one. *)
Definition IndexScreen_mount (getItem_ok : bool) (me : Response Auth.User)
    (removeItem_ok : bool) (w : Auth.World) : Auth.World * list Effect :=
  let token := Auth.token (Auth.state w) in
  let '(w', fx) := Auth.loadToken getItem_ok me removeItem_ok w in
  (w',
   fx ++ [match Auth.truthy_item token with
          | Some _ => RouterReplace "/home" []
          | None => RouterReplace "/auth/login" []
          end]).

End Index.

(** ** app/battle/room.tsx: submitting a segment *)

Module Submit.
Import JsString Http.






(** The updater that [transcribeAudio] passes to [setTextInput]:
    [(prev) => prev + (prev ? ' ' : '') + data.text]. *)
Definition appendTranscript (prev text : jsstring) : jsstring :=
  prev ++ (if falsy prev then [] else lit " ") ++ text.

(** Texts joined by single spaces. *)
Fixpoint joined (ts : list jsstring) : jsstring :=
  match ts with
  | [] => []
  | [t] => t
  | t :: ts' => t ++ lit " " ++ joined ts'
  end.

End Submit.

(** ** Predicates on the events of the room and the lobby *)

Module Events.
Import Http.

(** A status response that brings a status. *)
Definition brings_status (e : Room.Event) : bool :=
  match e with
  | Room.StatusResponse (Ok (Some _)) => true
  | _ => false
  end.

Definition is_judge_response (e : Room.Event) : bool :=
  match e with
  | Room.JudgeResponse _ => true
  | _ => false
  end.

Definition is_press (e : Room.Event) : bool :=
  match e with
  | Room.PressJudge => true
  | _ => false
  end.

(** The requests the battle room can send. *)
Definition room_request (p : Room.Props) (e : Effect) : Prop :=
  match e with
  | Fetch r =>
      r = Room.status_request p \/ r = Room.segments_request p \/ r = Room.judge_request p
  | _ => True
  end.

(** While no status has arrived, nothing but the status poller is alive. *)
Definition unloaded (s : Room.Screen) : Prop :=
  Room.battleStatus s = None /\ Room.judgeInFlight s = 0 /\
  Room.segmentsInterval s = None /\ Room.segmentsInFlight s = 0 /\
  Room.navTimers s = [].

Definition judge_path (p : Room.Props) : string := path (Room.judge_request p).

(** Status polls that fail one after the other. *)
Definition failing_polls : list Room.Event :=
  [Room.Mount; Room.StatusResponse (NotOk None); Room.StatusTick;
   Room.StatusResponse (FetchRejects "Network request failed")].


(** A lobby opened without a token. *)
Definition signed_out_props : Lobby.Props := {| Lobby.token := None |}.


End Events.

(** ** app/home.tsx and components/NavBar.tsx: signing out *)

Module Home.
Import Http.

(** [handleLogout]: [await logout(); router.replace('/auth/login')]. A
    [logout] that rejects ends the handler before the navigation. *)
Definition handleLogout (removeItem_ok : bool) (w : Auth.World)
  : Auth.World * list Effect * Outcome :=
  let '(w', out) := Auth.logout removeItem_ok w in
  (w',
   match out with
   | Resolved => [RouterReplace "/auth/login" []]
   | Rejected _ => []
   end,
   out).

End Home.

(** ** app/battle/lobby.tsx: creating and joining a battle *)

Module LobbyActions.
Import Http.

Inductive Stance := pro | con.

(** What the two handlers do to the outside world: the effects of the
    pollers, the two POSTs and [router.push]. *)
Inductive Action :=
| Do (e : Effect)
| CreateBattle (topic_id : Z) (stance : Stance) (bearer : option string)
| JoinBattle (battleId : string) (bearer : option string)
| RouterPush (href : string).

Definition room_href (battleId : string) : string :=
  "/battle/room?battleId=" +:+ battleId.

(** [!selectedTopic] on a [number | null]: null and 0 are falsy. *)
Definition no_topic (selectedTopic : option Z) : bool :=
  match selectedTopic with
  | Some t => Z.eqb t 0
  | None => true
  end.

(** [createBattle], run to the end of its promise and of its timeout:
    [resp] is the answer to the POST, with the [battle_id] of an OK body, and
    [mounted_later] is [isMounted.current] when the 100 ms timeout runs. *)
Definition createBattle (p : Lobby.Props) (selectedTopic : option Z)
    (selectedStance : Stance) (resp : Response string) (mounted_later : bool)
  : list Action :=
  match selectedTopic with
  | Some t =>
      if Z.eqb t 0 then [Do (Alert "Select Topic" "Please select a topic first")]
      else
        [Do (SetState "isCreating"); CreateBattle t selectedStance (Lobby.token p)] ++
        match resp with
        | Ok (Some battle_id) =>
            [Do (SetState "myBattleId"); Do (SetState "showTopicModal");
             Do (SetState "isCreating")] ++
            (if mounted_later then [RouterPush (room_href battle_id)] else [])
        | NotOk _ =>
            [Do (Alert "Error" "Failed to create battle"); Do (SetState "isCreating")]
        | FetchRejects _ | Ok None =>
            [Do (ConsoleError "Failed to create battle:");
             Do (Alert "Error" "Failed to create battle"); Do (SetState "isCreating")]
        end
  | None => [Do (Alert "Select Topic" "Please select a topic first")]
  end.

(** [joinBattle], run to the end of its promise: [resp] is the answer to
    the POST and [start_pressed] says whether the user pressed Start on the
    alert of a join that went through. A refused join reloads the list. *)
Definition joinBattle (p : Lobby.Props) (battleId : string) (resp : Response unit)
    (start_pressed : bool) (s : Lobby.Screen) : Lobby.Screen * list Action :=
  match resp with
  | Ok _ =>
      (s,
       [JoinBattle battleId (Lobby.token p);
        Do (Alert "✅ Joined Battle!" "Get ready to debate!")] ++
       (if start_pressed then [RouterPush (room_href battleId)] else []))
  | NotOk (Some detail) =>
      let '(s', fx) := Lobby.loadBattles p s in
      (s',
       [JoinBattle battleId (Lobby.token p);
        Do (Alert "Error" (or_default detail "Failed to join battle"))] ++ map Do fx)
  | NotOk None | FetchRejects _ =>
      (s,
       [JoinBattle battleId (Lobby.token p);
        Do (ConsoleError "Failed to join battle:");
        Do (Alert "Error" "Failed to join battle")])
  end.

Definition is_push (a : Action) : bool :=
  match a with RouterPush _ => true | _ => false end.

Definition is_request (a : Action) : bool :=
  match a with
  | CreateBattle _ _ _ | JoinBattle _ _ => true
  | Do (Fetch _) => true
  | _ => false
  end.

End LobbyActions.

(** ** lib/store.ts, app/topics.tsx and app/session.tsx: practice sessions *)

Module Session.
Import Http.

Inductive SegmentKind := opening | rebuttal | closing.

Record Segment := mkSegment {
  transcript : string;
  audioUrl : option string;
}.

(** [segments]: an object with at most the three kinds as keys. *)
Record Segments := mkSegments {
  seg_opening : option Segment;
  seg_rebuttal : option Segment;
  seg_closing : option Segment;
}.

Definition no_segments : Segments :=
  {| seg_opening := None; seg_rebuttal := None; seg_closing := None |}.

Definition get (s : Segments) (k : SegmentKind) : option Segment :=
  match k with
  | opening => seg_opening s
  | rebuttal => seg_rebuttal s
  | closing => seg_closing s
  end.

(** [{ ...segments, [kind]: data }] *)
Definition put (k : SegmentKind) (d : Segment) (s : Segments) : Segments :=
  match k with
  | opening => {| seg_opening := Some d; seg_rebuttal := seg_rebuttal s;
                  seg_closing := seg_closing s |}
  | rebuttal => {| seg_opening := seg_opening s; seg_rebuttal := Some d;
                   seg_closing := seg_closing s |}
  | closing => {| seg_opening := seg_opening s; seg_rebuttal := seg_rebuttal s;
                  seg_closing := Some d |}
  end.

(** [Object.keys(segments)] *)
Definition Object_keys (s : Segments) : list SegmentKind :=
  List.filter (fun k => match get s k with Some _ => true | None => false end)
    [opening; rebuttal; closing].

(** The data part of [SessionState]. *)
Record SessionState := mkSessionState {
  sessionId : option string;
  topicTitle : string;
  topicDescription : string;
  stance : string;
  currentSegment : option SegmentKind;
  segments : Segments;
}.

Definition useSessionStore : SessionState :=
  {| sessionId := None; topicTitle := ""; topicDescription := ""; stance := "";
     currentSegment := None; segments := no_segments |}.

(** [setSession: (data) => set(data)] *)
Definition setSession (id title description st : string) (s : SessionState)
  : SessionState :=
  {| sessionId := Some id; topicTitle := title; topicDescription := description;
     stance := st; currentSegment := currentSegment s; segments := segments s |}.

Definition setSegment (k : SegmentKind) (d : Segment) (s : SessionState)
  : SessionState :=
  {| sessionId := sessionId s; topicTitle := topicTitle s;
     topicDescription := topicDescription s; stance := stance s;
     currentSegment := currentSegment s; segments := put k d (segments s) |}.

Definition setCurrentSegment (k : option SegmentKind) (s : SessionState)
  : SessionState :=
  {| sessionId := sessionId s; topicTitle := topicTitle s;
     topicDescription := topicDescription s; stance := stance s;
     currentSegment := k; segments := segments s |}.

Definition reset (_ : SessionState) : SessionState := useSessionStore.

(** The body of a successful /session/start. *)
Record SessionStartResponse := mkStart {
  session_id : string;
  topic_title : string;
  topic_description : option string;
  start_stance : string;
}.

Inductive Action :=
| StartSession (topicId : Z)
| ScoreSession (id : string)
| RouterPush (href : string)
| AlertBox (title message : string)
| WindowAlert (message : string)
| Console (label : string)
| SetIsScoringSession (b : bool).

(** [handleStartSession] of the topics screen. The axios client throws on
    a failed request: [None] below. *)
Definition handleStartSession (topicId : Z) (resp : option SessionStartResponse)
    (s : SessionState) : SessionState * list Action :=
  let s := reset s in
  match resp with
  | Some response =>
      (setSession (session_id response) (topic_title response)
         (or_default (topic_description response) "") (start_stance response) s,
       [StartSession topicId; RouterPush "/session"])
  | None =>
      (s, [StartSession topicId; Console "Failed to start session:";
           WindowAlert "Failed to start session. Please try again."])
  end.

(** [!sessionId] *)
Definition active_session (s : SessionState) : option string :=
  match sessionId s with
  | Some id => if String.eqb id "" then None else Some id
  | None => None
  end.

(** [handleFinish] of the session screen; [scored] says whether
    [apiClient.scoreSession] went through. *)
Definition handleFinish (scored : bool) (s : SessionState) : list Action :=
  match active_session s with
  | None => []
  | Some id =>
      if Nat.ltb (length (Object_keys (segments s))) 3 then
        [AlertBox "Incomplete Session"
           "Please complete all three segments before finishing."]
      else if scored then
        [SetIsScoringSession true; ScoreSession id; SetIsScoringSession false;
         RouterPush "/results"]
      else
        [SetIsScoringSession true; ScoreSession id; SetIsScoringSession false;
         AlertBox "Error" "Failed to score session"; Console "Failed to score session"]
  end.

(** [n.toString()] for a natural number. *)
Definition toString (n : nat) : string :=
  DecimalString.NilEmpty.string_of_uint (Nat.to_uint n).

(** [s.padStart(2, '0')] *)
Definition padStart2 (s : string) : string :=
  match String.length s with
  | 0 => "00"
  | 1 => "0" +:+ s
  | _ => s
  end.

(** [formatTime]: [`${Math.floor(seconds / 60)}:${(seconds % 60).toString().padStart(2, '0')}`]
    on the whole seconds the recording timer counts. *)
Definition formatTime (seconds : nat) : string :=
  toString (seconds / 60) +:+ ":" +:+ padStart2 (toString (seconds mod 60)).

(** Reading a time back: the text before the first colon as minutes, the
    text after it as seconds. *)
Fixpoint split_colon (s : string) : option (string * string) :=
  match s with
  | EmptyString => None
  | String c s' =>
      if Ascii.eqb c ":"%char then Some (EmptyString, s')
      else match split_colon s' with
           | Some (a, b) => Some (String c a, b)
           | None => None
           end
  end.

Definition parse_nat (s : string) : option nat :=
  match DecimalString.NilEmpty.uint_of_string s with
  | Some d => Some (Nat.of_uint d)
  | None => None
  end.

Definition parseTime (s : string) : option nat :=
  match split_colon s with
  | Some (m, sec) =>
      match parse_nat m, parse_nat sec with
      | Some a, Some b => Some (60 * a + b)
      | _, _ => None
      end
  | None => None
  end.

(** The whole numbers a JavaScript number holds exactly, up to
    [Number.MAX_SAFE_INTEGER]. *)
Definition safe_integer (n : nat) : Prop := (Z.of_nat n <= 9007199254740991)%Z.

(** A text without a colon. *)
Fixpoint no_colon (s : string) : Prop :=
  match s with
  | EmptyString => True
  | String c s' => c <> ":"%char /\ no_colon s'
  end.

(** Sample stores: a session under way and one with all three segments. *)
Definition started_session : SessionState :=
  setSegment opening {| transcript := "o"; audioUrl := None |}
    (setSession "s1" "School uniforms" "" "pro" useSessionStore).

Definition recorded_session : SessionState :=
  setSegment closing {| transcript := "c"; audioUrl := None |}
    (setSegment rebuttal {| transcript := "r"; audioUrl := None |} started_session).

End Session.

(** * Lemmas *)

(** ** The theme store *)

Module ThemeFacts.
Import Theme.

Lemma light_dark_differ : lightTheme <> darkTheme.
Proof. discriminate. Qed.

Lemma theme_inv_init : theme_inv useThemeStore.
Proof. reflexivity. Qed.

Lemma theme_inv_toggle s : theme_inv (toggleTheme s).
Proof. reflexivity. Qed.

Lemma theme_inv_set b s : theme_inv (setTheme b s).
Proof. reflexivity. Qed.

Lemma theme_inv_reachable s : reachable s -> theme_inv s.
Proof.
  induction 1 as [|s a _ _]; [apply theme_inv_init|].
  destruct a; [apply theme_inv_toggle | apply theme_inv_set].
Qed.

Lemma toggle_twice_isDark s : isDark (toggleTheme (toggleTheme s)) = isDark s.
Proof. simpl. apply negb_involutive. Qed.

Lemma toggle_twice_inv s : theme_inv s -> toggleTheme (toggleTheme s) = s.
Proof.
  destruct s as [d t]; unfold theme_inv; simpl; intros ->.
  by destruct d.
Qed.

(** The invariant is what makes the double toggle the identity: a state
    outside it is repaired, not restored. *)
Example toggle_twice_outside_inv :
  toggleTheme (toggleTheme {| isDark := false; theme := darkTheme |})
  = {| isDark := false; theme := lightTheme |}.
Proof. reflexivity. Qed.

(** C8. The theme store starts with theme = (isDark ? darkTheme : lightTheme);
    toggleTheme and setTheme both preserve that invariant, and on a state
    that satisfies it (so on every state the store reaches) toggleTheme
    applied twice gives back the same isDark and the same theme. *)
Theorem theme_store_invariant_and_involution :
  theme_inv useThemeStore /\
  (forall s : ThemeState,
    theme_inv s ->
    theme_inv (toggleTheme s) /\
    (forall b, theme_inv (setTheme b s)) /\
    toggleTheme (toggleTheme s) = s) /\
  (forall s : ThemeState, reachable s -> theme_inv s).
Proof.
  split; [apply theme_inv_init|]. split; [|apply theme_inv_reachable].
  intros s Hi.
  repeat split; auto using theme_inv_toggle, theme_inv_set, toggle_twice_inv.
Qed.

Lemma theme_store_invariant_and_involution_witness :
  theme_inv (toggleTheme useThemeStore) /\
  theme_inv (toggleTheme (toggleTheme useThemeStore)) /\
  theme_inv (setTheme false (toggleTheme useThemeStore)) /\
  toggleTheme (toggleTheme (toggleTheme useThemeStore)) = toggleTheme useThemeStore.
Proof.
  destruct theme_store_invariant_and_involution as (_ & H & _).
  assert (Hi : theme_inv (toggleTheme useThemeStore)) by reflexivity.
  destruct (H (toggleTheme useThemeStore) Hi) as (Ht & Hs & Hinv).
  split; [exact Hi|]. split; [exact Ht|]. split; [exact (Hs false) | exact Hinv].
Defined.

(** The store has two states and no other: every sequence of toggleTheme
    and setTheme ends in the light state or the dark state, and both can be
    reached. *)
Theorem theme_store_two_states (s : ThemeState) :
  reachable s <->
  s = {| isDark := false; theme := lightTheme |} \/
  s = {| isDark := true; theme := darkTheme |}.
Proof.
  split.
  - intros Hr. pose proof (theme_inv_reachable s Hr) as Hi.
    destruct s as [d t]. unfold theme_inv in Hi. simpl in Hi. subst t.
    destruct d; auto.
  - intros [-> | ->].
    + apply reach_init.
    + apply (reach_step useThemeStore ToggleTheme), reach_init.
Qed.

End ThemeFacts.

(** ** Regular expressions: [test] decides the language *)

Module RegexFacts.
Import JsString Regex.

Lemma lang_nil_nullable r s : lang r s -> s = [] -> nullable r = true.
Proof.
  induction 1 as [| | r1 r2 s1 s2 _ IH1 _ IH2 | r1 r2 s _ IH | r1 r2 s _ IH | |];
    intros Hs; simpl; auto.
  - discriminate.
  - apply app_eq_nil in Hs as [-> ->]. by rewrite IH1, IH2.
  - by rewrite IH.
  - rewrite IH by done. apply orb_true_r.
Qed.

Lemma nullable_lang r : nullable r = true -> lang r [].
Proof.
  induction r as [| | p | r1 IH1 r2 IH2 | r1 IH1 r2 IH2 | r IH]; simpl; intros H.
  - discriminate.
  - constructor.
  - discriminate.
  - apply andb_true_iff in H as [H1 H2].
    change (@nil Z) with (@nil Z ++ []). constructor; auto.
  - apply orb_true_iff in H as [H|H]; [apply lang_alt_l | apply lang_alt_r]; auto.
  - constructor.
Qed.

Lemma nullable_spec r : nullable r = true <-> lang r [].
Proof. split; [apply nullable_lang | intros H; by apply (lang_nil_nullable r [])]. Qed.

Lemma lang_seq_inv r1 r2 s :
  lang (Seq r1 r2) s <-> exists s1 s2, s = s1 ++ s2 /\ lang r1 s1 /\ lang r2 s2.
Proof.
  split.
  - intros H. inversion H; subst. eauto.
  - intros (s1 & s2 & -> & H1 & H2). by constructor.
Qed.

Lemma lang_class_inv p s : lang (Class p) s <-> exists c, s = [c] /\ p c = true.
Proof.
  split.
  - intros H. inversion H; subst. eauto.
  - intros (c & -> & H). by constructor.
Qed.

(** A nonempty word of [r*] starts with a nonempty word of [r]. *)
Lemma lang_star_cons_inv r s :
  lang (Star r) s -> forall c s', s = c :: s' ->
  exists s1 s2, s' = s1 ++ s2 /\ lang r (c :: s1) /\ lang (Star r) s2.
Proof.
  intros H. remember (Star r) as r' eqn:Hr.
  induction H as [| | | | | r0 | r0 s1 s2 H1 _ H2 IH2]; try discriminate.
  injection Hr as ->. intros c s' Hs.
  destruct s1 as [|c1 s1]; simpl in Hs.
  - apply (IH2 eq_refl c s' Hs).
  - injection Hs as -> <-. by exists s1, s2.
Qed.

Lemma deriv_lang c r s : lang (deriv c r) s -> lang r (c :: s).
Proof.
  revert s. induction r as [| | p | r1 IH1 r2 IH2 | r1 IH1 r2 IH2 | r IH];
    simpl; intros s H.
  - inversion H.
  - inversion H.
  - destruct (p c) eqn:Hp; inversion H; subst. by constructor.
  - destruct (nullable r1) eqn:Hn.
    + inversion H as [| | | ? ? ? HL | ? ? ? HR | |]; subst.
      * inversion HL; subst.
        change (c :: ?a ++ ?b) with ((c :: a) ++ b). constructor; auto.
      * change (c :: s) with ([] ++ c :: s). constructor; auto.
        by apply nullable_lang.
    + inversion H; subst.
      change (c :: ?a ++ ?b) with ((c :: a) ++ b). constructor; auto.
  - inversion H; subst; [apply lang_alt_l | apply lang_alt_r]; auto.
  - inversion H; subst.
    change (c :: ?a ++ ?b) with ((c :: a) ++ b). constructor; auto.
Qed.

Lemma lang_deriv c r s : lang r (c :: s) -> lang (deriv c r) s.
Proof.
  revert s. induction r as [| | p | r1 IH1 r2 IH2 | r1 IH1 r2 IH2 | r IH];
    simpl; intros s H.
  - inversion H.
  - inversion H.
  - inversion H as [| ? ? Hp | | | | |]; subst. rewrite Hp. constructor.
  - apply lang_seq_inv in H as (s1 & s2 & Heq & H1 & H2).
    destruct s1 as [|c1 s1]; simpl in Heq.
    + subst s2. rewrite (lang_nil_nullable r1 [] H1 eq_refl).
      apply lang_alt_r. auto.
    + injection Heq as <- ->.
      destruct (nullable r1); [apply lang_alt_l|]; constructor; auto.
  - inversion H; subst; [apply lang_alt_l | apply lang_alt_r]; auto.
  - destruct (lang_star_cons_inv r _ H c s eq_refl) as (s1 & s2 & -> & H1 & H2).
    constructor; auto.
Qed.

Lemma test_spec r s : test r s = true <-> lang r s.
Proof.
  revert r. induction s as [|c s IH]; intros r; simpl.
  - apply nullable_spec.
  - rewrite IH. split; [apply deriv_lang | apply lang_deriv].
Qed.

(** [[p]*] and [[p]+] match the words made of [p]. *)
Lemma lang_star_class p s : lang (Star (Class p)) s <-> Forall (fun c => p c = true) s.
Proof.
  split.
  - intros H. remember (Star (Class p)) as r eqn:Hr.
    induction H as [| | | | | r0 | r0 s1 s2 H1 _ H2 IH2]; try discriminate.
    + constructor.
    + injection Hr as ->. inversion H1; subst. simpl. constructor; auto.
  - induction 1 as [|c s Hc _ IH].
    + constructor.
    + change (c :: s) with ([c] ++ s). constructor; [by constructor | exact IH].
Qed.

Lemma lang_plus_class p s :
  lang (Plus (Class p)) s <-> s <> [] /\ Forall (fun c => p c = true) s.
Proof.
  unfold Plus. split.
  - intros H. inversion H as [| | ? ? s1 s2 H1 H2 | | | |]; subst.
    inversion H1; subst. simpl. split; [discriminate|].
    constructor; [done | by apply lang_star_class].
  - intros [Hne Hall]. destruct s as [|c s]; [done|].
    inversion Hall; subst.
    change (c :: s) with ([c] ++ s). constructor; [by constructor | by apply lang_star_class].
Qed.

End RegexFacts.

(** ** The registration form *)

Module RegisterFacts.
Import JsString Regex Http Register RegexFacts.



Lemma eqb_eq (s t : jsstring) : eqb s t = true <-> s = t.
Proof. unfold eqb. apply bool_decide_eq_true. Qed.

(** What the regular expression of the screen accepts: local part, one at
    sign, and a domain with a dot inside, none of them with white space or a
    further at sign. *)
Lemma emailRegex_spec (e : jsstring) :
  valid_email e <->
  exists a b c,
    e = a ++ 64%Z :: b ++ 46%Z :: c /\
    a <> [] /\ b <> [] /\ c <> [] /\
    Forall (fun x => notSpaceAt x = true) (a ++ b ++ c).
Proof.
  unfold valid_email, emailRegex. rewrite test_spec. split.
  - intros H.
    apply lang_seq_inv in H as (a & t1 & -> & Ha & H).
    apply lang_seq_inv in H as (x & t2 & -> & Hx & H).
    apply lang_seq_inv in H as (b & t3 & -> & Hb & H).
    apply lang_seq_inv in H as (y & c & -> & Hy & Hc).
    apply lang_class_inv in Hx as (cx & -> & Hcx).
    apply lang_class_inv in Hy as (cy & -> & Hcy).
    apply Z.eqb_eq in Hcx, Hcy. subst cx cy.
    apply lang_plus_class in Ha as [Ha1 Ha2].
    apply lang_plus_class in Hb as [Hb1 Hb2].
    apply lang_plus_class in Hc as [Hc1 Hc2].
    exists a, b, c. repeat split; auto.
    rewrite !Forall_app. auto.
  - intros (a & b & c & -> & Ha & Hb & Hc & Hall).
    rewrite !Forall_app in Hall. destruct Hall as (Fa & Fb & Fc).
    apply lang_seq. { by apply lang_plus_class. }
    change (64%Z :: b ++ 46%Z :: c) with ([64%Z] ++ b ++ [46%Z] ++ c).
    apply lang_seq. { by apply lang_class. }
    apply lang_seq. { by apply lang_plus_class. }
    apply lang_seq. { by apply lang_class. }
    by apply lang_plus_class.
Qed.

Example email_accepted : test emailRegex (lit "ann@mail.example.org") = true.
Proof. reflexivity. Qed.

Example email_without_dot : test emailRegex (lit "ann@localhost") = false.
Proof. reflexivity. Qed.

Example email_with_space : test emailRegex (lit "ann lee@mail.org") = false.
Proof. reflexivity. Qed.

Example email_two_ats : test emailRegex (lit "ann@lee@mail.org") = false.
Proof. reflexivity. Qed.

Example trim_strips_both_ends : trim (lit "  ann lee ") = lit "ann lee".
Proof. reflexivity. Qed.








End RegisterFacts.

(** ** The auth store *)

Module AuthFacts.
Import JsString Http Auth.

Lemma authenticate_succeeds req fb lbl resp ok w data :
  succeeds resp ok = Some data ->
  authenticate req fb lbl resp ok w = (signed_in data w, [Fetch req], Resolved).
Proof.
  destruct resp as [e|[d|]|[d|]]; simpl; try discriminate.
  destruct ok; [|discriminate]. by intros [= ->].
Qed.

Lemma authenticate_fails req fb lbl resp ok w :
  succeeds resp ok = None ->
  exists msg,
    authenticate req fb lbl resp ok w = (w, [Fetch req; ConsoleError lbl], Rejected msg).
Proof.
  destruct resp as [e|[d|]|[d|]]; simpl; eauto.
  destruct ok; [discriminate | eauto].
Qed.

Lemma signed_in_stored data w :
  asyncStorage (signed_in data w) !! "auth_token" = Some (access_token data) /\
  token (state (signed_in data w)) = Some (access_token data) /\
  user (state (signed_in data w)) = Some (data_user data).
Proof. simpl. by rewrite lookup_insert_eq. Qed.

(** [loadToken] with a stored token that /auth/me verifies. *)
Lemma loadToken_verified t u r w :
  truthy_item (asyncStorage w !! "auth_token") = Some t ->
  fst (loadToken true (Ok (Some u)) r w) = restored t u w.
Proof. unfold loadToken. simpl. by intros ->. Qed.

(** [loadToken] with a stored token that /auth/me refuses. *)
Lemma loadToken_refused t b w :
  truthy_item (asyncStorage w !! "auth_token") = Some t ->
  fst (loadToken true (NotOk b) true w) = signed_out w.
Proof. unfold loadToken. simpl. by intros ->. Qed.

(** Every other case: nothing stored, or a storage call, the request or its
    body failed. *)
Lemma loadToken_otherwise g me r w :
  g = false \/
  truthy_item (asyncStorage w !! "auth_token") = None \/
  (exists e, me = FetchRejects e) \/
  me = Ok None \/
  ((exists b, me = NotOk b) /\ r = false) ->
  fst (loadToken g me r w) = loaded w.
Proof.
  unfold loadToken.
  intros [->|H]; [reflexivity|]. destruct g; [simpl|reflexivity].
  destruct (truthy_item _) as [t|]; [|reflexivity].
  destruct H as [H|[[e ->]|[->|[[b ->] ->]]]]; try reflexivity. discriminate.
Qed.

(** The state holds a token after [loadToken] that it did not hold before
    only if /auth/me answered OK. *)
Lemma loadToken_restores_only_verified g me r w t :
  token (state (fst (loadToken g me r w))) = Some t ->
  token (state w) <> Some t ->
  exists u, me = Ok (Some u) /\ asyncStorage w !! "auth_token" = Some t.
Proof.
  unfold loadToken. destruct g; simpl; [|congruence].
  destruct (asyncStorage w !! "auth_token") as [t'|] eqn:Hs; simpl; [|congruence].
  destruct (String.eqb t' ""); [simpl; congruence|].
  destruct me as [e|b|[u|]]; simpl; try congruence.
  - destruct r; simpl; congruence.
  - intros [= ->] _. eauto.
Qed.

(** C7, as the code has it. A login or register that goes through stores
    the access_token under 'auth_token' in AsyncStorage and token and user
    in the state; one that fails rejects and changes neither. loadToken
    restores a stored token, with its user, only when /auth/me answers OK;
    when /auth/me answers non-OK it removes the stored token and clears
    token and user; when nothing is stored, or a storage call, the request
    or its body fails, it clears isLoading and leaves the stored token,
    token and user as they were. *)
Theorem auth_token_stored_and_restored :
  (forall u e p resp ok w,
     match succeeds resp ok with
     | Some data =>
         login u p resp ok w = (signed_in data w, [Fetch (login_request u p)], Resolved) /\
         register u e p resp ok w
         = (signed_in data w, [Fetch (register_request u e p)], Resolved) /\
         asyncStorage (signed_in data w) !! "auth_token" = Some (access_token data) /\
         token (state (signed_in data w)) = Some (access_token data) /\
         user (state (signed_in data w)) = Some (data_user data)
     | None =>
         (exists msg, login u p resp ok w
            = (w, [Fetch (login_request u p); ConsoleError "Login error:"], Rejected msg)) /\
         (exists msg, register u e p resp ok w
            = (w, [Fetch (register_request u e p); ConsoleError "Registration error:"],
               Rejected msg))
     end) /\
  (forall g me r w,
     (forall t u, g = true -> me = Ok (Some u) ->
        truthy_item (asyncStorage w !! "auth_token") = Some t ->
        fst (loadToken g me r w) = restored t u w) /\
     (forall t b, g = true -> me = NotOk b -> r = true ->
        truthy_item (asyncStorage w !! "auth_token") = Some t ->
        fst (loadToken g me r w) = signed_out w) /\
     (g = false \/
      truthy_item (asyncStorage w !! "auth_token") = None \/
      (exists e, me = FetchRejects e) \/
      me = Ok None \/
      ((exists b, me = NotOk b) /\ r = false) ->
      fst (loadToken g me r w) = loaded w) /\
     (forall t, token (state (fst (loadToken g me r w))) = Some t ->
        token (state w) <> Some t ->
        exists u, me = Ok (Some u) /\ asyncStorage w !! "auth_token" = Some t)).
Proof.
  split.
  - intros u e p resp ok w. destruct (succeeds resp ok) as [data|] eqn:Hs.
    + unfold login, register.
      rewrite !(authenticate_succeeds _ _ _ resp ok w data Hs).
      pose proof (signed_in_stored data w) as (H1 & H2 & H3). auto.
    + split; apply authenticate_fails; exact Hs.
  - intros g me r w. repeat split.
    + intros t u -> -> Ht. by apply loadToken_verified.
    + intros t b -> -> -> Ht. by apply (loadToken_refused t).
    + apply loadToken_otherwise.
    + apply loadToken_restores_only_verified.
Qed.

Lemma auth_token_stored_and_restored_witness :
  fst (loadToken true (Ok (Some sample_user)) true device_with_token)
  = restored "tok" sample_user device_with_token /\
  fst (loadToken true (NotOk None) true device_with_token) = signed_out device_with_token /\
  fst (loadToken true (FetchRejects "Network request failed") true device_with_token)
  = loaded device_with_token.
Proof.
  destruct auth_token_stored_and_restored as [_ H].
  split; [|split].
  - destruct (H true (Ok (Some sample_user)) true device_with_token) as (H1 & _).
    apply (H1 "tok" sample_user); reflexivity.
  - destruct (H true (NotOk None) true device_with_token) as (_ & H2 & _).
    apply (H2 "tok" None); reflexivity.
  - destruct (H true (@FetchRejects User "Network request failed") true device_with_token)
      as (_ & _ & H3 & _).
    apply H3. right; right; left. by eexists.
Defined.

(** C7, the claim as written, fails where /auth/me cannot be reached: the
    stored token is not verified and yet it stays in AsyncStorage. *)
Lemma loadToken_keeps_token_when_unreachable :
  asyncStorage
    (fst (loadToken true (FetchRejects "Network request failed") true device_with_token))
    !! "auth_token" = Some "tok" /\
  asyncStorage (signed_out device_with_token) !! "auth_token" = None.
Proof.
  split.
  - simpl. apply lookup_singleton_eq.
  - simpl. apply lookup_delete_eq.
Qed.

(** *** Beyond the token's life cycle *)

(** Signing out after signing in: the token is gone from the state and from
    AsyncStorage, every other stored item is as it was before the login, and
    isLoading is untouched. A removeItem that rejects leaves the user signed
    in, in the state and in storage. *)
Theorem login_then_logout u p resp ok w data :
  succeeds resp ok = Some data ->
  let w1 := fst (fst (login u p resp ok w)) in
  logout true w1
  = ({| state := {| token := None; user := None; isLoading := isLoading (state w) |};
        asyncStorage := delete "auth_token" (asyncStorage w) |}, Resolved) /\
  asyncStorage (fst (logout true w1)) !! "auth_token" = None /\
  (forall k, k <> "auth_token" ->
     asyncStorage (fst (logout true w1)) !! k = asyncStorage w !! k) /\
  logout false w1 = (w1, Rejected storage_error) /\
  token (state (fst (logout false w1))) = Some (access_token data).
Proof.
  intros Hs. unfold login. rewrite (authenticate_succeeds _ _ _ resp ok w data Hs).
  simpl. unfold logout, signed_in. simpl.
  rewrite delete_insert_eq. repeat split.
  - apply lookup_delete_eq.
  - intros k Hk. by apply lookup_delete_ne.
Qed.

Lemma login_then_logout_witness :
  asyncStorage
    (fst (logout true
            (fst (fst (login (JsString.lit "ann") (JsString.lit "secret1")
                         (Ok (Some {| access_token := "tok2"; data_user := sample_user |}))
                         true device_with_token)))))
    !! "auth_token" = None.
Proof.
  refine (proj1 (proj2 (login_then_logout (JsString.lit "ann") (JsString.lit "secret1")
            (Ok (Some {| access_token := "tok2"; data_user := sample_user |}))
            true device_with_token
            {| access_token := "tok2"; data_user := sample_user |} _))).
  reflexivity.
Defined.

(** The token a login persisted is the token loadToken sends to /auth/me
    and, when /auth/me answers OK, restores together with the user of that
    answer. An empty access_token is stored but counts as no token at all
    when it is loaded. *)
Theorem login_then_loadToken u p resp ok w data me_user r :
  succeeds resp ok = Some data ->
  let w1 := fst (fst (login u p resp ok w)) in
  (access_token data <> "" ->
   loadToken true (Ok (Some me_user)) r w1
   = (restored (access_token data) me_user w1,
      [Fetch (me_request (access_token data))])) /\
  (access_token data = "" ->
   loadToken true (Ok (Some me_user)) r w1 = (loaded w1, [])).
Proof.
  intros Hs. unfold login. rewrite (authenticate_succeeds _ _ _ resp ok w data Hs).
  simpl. unfold loadToken. simpl. rewrite lookup_insert_eq. simpl.
  split.
  - intros Hne. apply String.eqb_neq in Hne. by rewrite Hne.
  - intros He. unfold loaded, signed_in. simpl. rewrite He. reflexivity.
Qed.

Lemma login_then_loadToken_witness :
  token (state (fst (loadToken true (Ok (Some sample_user)) true
    (fst (fst (login (JsString.lit "ann") (JsString.lit "secret1")
                 (Ok (Some {| access_token := "tok2"; data_user := sample_user |}))
                 true fresh_device))))))
  = Some "tok2".
Proof.
  pose proof (login_then_loadToken (JsString.lit "ann") (JsString.lit "secret1")
    (Ok (Some {| access_token := "tok2"; data_user := sample_user |})) true fresh_device
    {| access_token := "tok2"; data_user := sample_user |} sample_user true eq_refl)
    as [H _].
  cbv zeta in H. rewrite H; [reflexivity | discriminate].
Defined.

(** loadToken always ends with isLoading cleared, whatever fails; it sends
    at most one request, to /auth/me with the stored token, and of the
    stored items it can only remove 'auth_token'. *)
Theorem loadToken_settles g me r w :
  isLoading (state (fst (loadToken g me r w))) = false /\
  (forall k, k <> "auth_token" ->
     asyncStorage (fst (loadToken g me r w)) !! k = asyncStorage w !! k) /\
  (List.filter is_fetch (snd (loadToken g me r w)) = [] \/
   exists t, asyncStorage w !! "auth_token" = Some t /\ t <> "" /\
     List.filter is_fetch (snd (loadToken g me r w)) = [Fetch (me_request t)]).
Proof.
  unfold loadToken. destruct g; simpl; [|by repeat split; auto].
  destruct (asyncStorage w !! "auth_token") as [t|] eqn:Hs; simpl;
    [|by repeat split; auto].
  destruct (String.eqb t "") eqn:Ht; [by repeat split; auto|].
  apply String.eqb_neq in Ht.
  destruct me as [e|b|[u|]]; simpl; try (repeat split; eauto; fail).
  destruct r; simpl; repeat split; eauto.
  intros k Hk. by apply lookup_delete_ne.
Qed.

End AuthFacts.

(** ** The battle room *)

Module RoomFacts.
Import Http Room.

Ltac unfold_handlers :=
  unfold step, mount, unmount, fetchBattleStatus, fetchBattleStatus_resume,
    battleStatus_effect, fetchOpponentSegments, fetchOpponentSegments_resume,
    requestJudgment, requestJudgment_resume, navigation_timeout in *.

(** Splits [wf] into its fields and closes the ones that follow from the
    hypotheses at hand. *)
Ltac wf_fields :=
  constructor; unfold in_progress; simpl;
  repeat match goal with
         | H : isMounted ?s = _ |- context [isMounted ?s] => rewrite H
         | H : phase ?s = _ |- context [phase ?s] => rewrite H
         | H : segmentsInterval ?s = _ |- context [segmentsInterval ?s] => rewrite H
         | H : statusInterval ?s = _ |- context [statusInterval ?s] => rewrite H
         end;
  try done; try congruence; try tauto; try (split; intros; congruence); eauto.

(** All the ways a step can go. *)
Ltac step_cases Hstep :=
  unfold_handlers; simpl in Hstep;
  repeat (case_match; simplify_eq/=).


(** *** Runs *)

Lemma run_app p s es1 es2 :
  run p s (es1 ++ es2) =
  match run p s es1 with
  | Some (s1, fx1) =>
      match run p s1 es2 with
      | Some (s2, fx2) => Some (s2, fx1 ++ fx2)
      | None => None
      end
  | None => None
  end.
Proof.
  revert s. induction es1 as [|e es1 IH]; intros s; simpl.
  - destruct (run p s es2) as [[s2 fx2]|]; reflexivity.
  - destruct (step p s e) as [[s' fx]|]; [|reflexivity].
    rewrite IH. destruct (run p s' es1) as [[s1 fx1]|]; [|reflexivity].
    destruct (run p s1 es2) as [[s2 fx2]|]; [|reflexivity].
    by rewrite app_assoc.
Qed.

Lemma run_cons_inv p s e es s2 fx :
  run p s (e :: es) = Some (s2, fx) ->
  exists s1 fx1 fx2,
    step p s e = Some (s1, fx1) /\ run p s1 es = Some (s2, fx2) /\ fx = fx1 ++ fx2.
Proof.
  simpl. destruct (step p s e) as [[s1 fx1]|]; [|discriminate].
  destruct (run p s1 es) as [[s2' fx2]|] eqn:Hrun; [|discriminate].
  intros [= <- <-]. by exists s1, fx1, fx2.
Qed.

(** An invariant of the steps holds along every run. *)
Lemma run_invariant p (I : Screen -> Prop) :
  (forall s e s' fx, I s -> step p s e = Some (s', fx) -> I s') ->
  forall es s s' fx, I s -> run p s es = Some (s', fx) -> I s'.
Proof.
  intros Hstep. induction es as [|e es IH]; intros s s' fx Hi Hrun.
  - simpl in Hrun. by injection Hrun as <- _.
  - apply run_cons_inv in Hrun as (s1 & fx1 & fx2 & H1 & H2 & _).
    eapply IH; [|exact H2]. eapply Hstep; eauto.
Qed.

(** *** The invariant *)

Lemma wf_initial p : wf p initial.
Proof. constructor; simpl; done. Qed.

Lemma filter_not_mine p (segs : list SegmentData) :
  Forall (fun seg => Some (player_id seg) <> currentUserId p)
    (List.filter (not_mine p) segs).
Proof.
  apply List.Forall_forall. intros seg Hin. apply filter_In in Hin as [_ Hn].
  unfold not_mine in Hn. apply negb_true_iff, bool_decide_eq_false in Hn. exact Hn.
Qed.

Lemma wf_step p s e s' fx : wf p s -> step p s e = Some (s', fx) -> wf p s'.
Proof.
  intros [H1 H2 H3 H4 H5 H6 H7] Hstep. unfold in_progress in H3.
  destruct (phase s) eqn:Hp.
  { (* before the mount only the mount can happen *)
    rewrite (H6 eq_refl) in *. clear H6.
    destruct e; unfold_handlers; simpl in Hstep; simplify_eq/=. wf_fields. }
  - (* mounted *)
    assert (Hm : isMounted s = true) by tauto. rewrite Hm in *.
    destruct e; unfold_handlers; simpl in Hstep; rewrite ?Hp in Hstep.
    + discriminate.
    + simplify_eq/=. wf_fields.
    + destruct (statusInterval s) eqn:Hi; simplify_eq/=. wf_fields.
    + destruct (statusInFlight s) eqn:Hn; simplify_eq/=.
      destruct r as [err|b|[data|]]; simplify_eq/=; try (wf_fields; fail).
      destruct (judgment data) as [j|];
      destruct (String.eqb (status data) "completed") eqn:Hc;
      destruct (String.eqb (status data) "in_progress") eqn:Hip;
      simpl in Hstep; rewrite ?Hm in Hstep; simpl in Hstep; rewrite ?Hp in Hstep;
      simpl in Hstep; rewrite ?Hip in Hstep; simplify_eq/=;
      wf_fields.
      all: intros d [= <-]; apply String.eqb_eq in Hip; eauto.
    + destruct (navTimers s) eqn:Hn; simplify_eq/=. wf_fields.
    + destruct (segmentsInterval s) eqn:Hi; simplify_eq/=. wf_fields.
    + destruct (segmentsInFlight s) eqn:Hn; simplify_eq/=.
      destruct r as [err|b|[data|]]; simplify_eq/=; wf_fields.
      apply filter_not_mine.
    + destruct (judgeShown (render p s) && negb (judgeDisabled (render p s))) eqn:Hb;
        simplify_eq/=.
      assert (Hj : isJudging s = false).
      { unfold render in Hb. destruct (battleStatus s); [|done].
        destruct (loading s); simpl in Hb; [done|].
        apply andb_true_iff in Hb as [_ Hd]. by apply negb_true_iff in Hd. }
      rewrite Hj in H4. wf_fields.
    + destruct (judgeInFlight s) eqn:Hn; simplify_eq/=.
      destruct (isJudging s) eqn:Hj; [|discriminate]. injection H4 as ->.
      wf_fields.
  - (* unmounted *)
    assert (Hm : isMounted s = false).
    { destruct (isMounted s); [|done]. destruct H1 as [H1 _]. by specialize (H1 eq_refl). }
    rewrite Hm in *.
    assert (Hg : segmentsInterval s = None).
    { destruct (segmentsInterval s) as [d|] eqn:Hd; [|done].
      by destruct (H3 d eq_refl) as (_ & ? & _). }
    destruct e; unfold_handlers; simpl in Hstep; rewrite ?Hp, ?H2, ?Hg in Hstep;
      try discriminate.
    + destruct (statusInFlight s) eqn:Hn; simplify_eq/=.
      destruct r as [err|b|[data|]]; simplify_eq/=; try (wf_fields; fail).
      destruct (judgment data) as [j|];
      destruct (String.eqb (status data) "completed") eqn:Hc;
      simpl in Hstep; rewrite ?Hm in Hstep; simpl in Hstep; rewrite ?Hp in Hstep;
      simplify_eq/=; wf_fields.
    + destruct (navTimers s) eqn:Hn; simplify_eq/=. wf_fields.
    + destruct (segmentsInFlight s) eqn:Hn; simplify_eq/=.
      destruct r as [err|b|[data|]]; simplify_eq/=; wf_fields.
      apply filter_not_mine.
    + destruct (judgeInFlight s) eqn:Hn; simplify_eq/=.
      destruct (isJudging s) eqn:Hj; [|discriminate]. injection H4 as ->.
      wf_fields.
Qed.

Lemma wf_run p es s s' fx : wf p s -> run p s es = Some (s', fx) -> wf p s'.
Proof. apply (run_invariant p (wf p)), wf_step. Qed.

Lemma wf_reachable p es s fx : run p initial es = Some (s, fx) -> wf p s.
Proof. apply wf_run, wf_initial. Qed.

(** *** The sample visit runs *)

Lemma ordinary_visit_runs :
  exists s fx, run sample_props initial ordinary_visit = Some (s, fx).
Proof. vm_compute. eauto. Qed.

(** C9. In every state the battle room reaches, no segment of
    opponentTranscripts has the current user's id as its player_id: the only
    store into it is the filtered list of fetchOpponentSegments. *)
Theorem opponent_transcripts_exclude_self p es s fx :
  run p initial es = Some (s, fx) ->
  Forall (fun seg => Some (player_id seg) <> currentUserId p) (opponentTranscripts s) /\
  (forall segs s0,
     opponentTranscripts (fst (fetchOpponentSegments_resume p (Ok (Some segs)) s0))
     = List.filter (not_mine p) segs).
Proof.
  intros Hrun. split.
  - apply (wf_opponent p s). eapply wf_reachable; eauto.
  - reflexivity.
Qed.

Lemma opponent_transcripts_exclude_self_witness :
  exists s,
    option_map fst (run sample_props initial ordinary_visit) = Some s /\
    opponentTranscripts s
    = [ {| kind := opening; transcript := "We should not."; player_id := "u2" |} ] /\
    Forall (fun seg => Some (player_id seg) <> currentUserId sample_props)
      (opponentTranscripts s).
Proof.
  destruct (run sample_props initial ordinary_visit) as [[s fx]|] eqn:Hrun;
    [|vm_compute in Hrun; discriminate].
  exists s. split; [reflexivity|]. split.
  - vm_compute in Hrun. by injection Hrun as <- _.
  - exact (proj1 (opponent_transcripts_exclude_self sample_props ordinary_visit s fx Hrun)).
Defined.

(** *** Rendering *)

Lemma three_truthy_spec s : three_truthy s = true <-> all_submitted s.
Proof.
  destruct s as [o r c]. unfold three_truthy, Object_values, all_submitted.
  split.
  - intros H k.
    destruct o as [[]|], r as [[]|], c as [[]|]; simpl in H; try discriminate.
    by destruct k.
  - intros H.
    pose proof (H opening) as Ho. pose proof (H rebuttal) as Hr.
    pose proof (H closing) as Hc. simpl in Ho, Hr, Hc. by subst.
Qed.

Lemma no_segments_not_submitted : ~ all_submitted no_segments.
Proof. intros H. specialize (H opening). discriminate. Qed.

Lemma allSegmentsComplete_spec p bs :
  allSegmentsComplete p bs = true <-> both_all_submitted bs.
Proof.
  unfold allSegmentsComplete, mySegments, opponentSegments, both_all_submitted.
  assert (H2 : three_truthy (player2_segments bs) = true <->
               exists q, player2 bs = Some q /\ all_submitted (segments q)).
  { rewrite three_truthy_spec. unfold player2_segments.
    destruct (player2 bs) as [q|].
    - split; [eauto | by intros (q' & [= <-] & H)].
    - split; [intros H; by apply no_segments_not_submitted in H | by intros (q & ? & _)]. }
  destruct (isPlayer1 p bs); rewrite andb_true_iff, H2, three_truthy_spec; tauto.
Qed.

Lemma judgeShown_spec p s :
  judgeShown (render p s) = true <->
  exists bs, battleStatus s = Some bs /\ loading s = false /\ both_all_submitted bs.
Proof.
  unfold render. destruct (battleStatus s) as [bs|].
  - destruct (loading s); simpl.
    + split; [discriminate | by intros (? & _ & ? & _)].
    + rewrite allSegmentsComplete_spec. split; [eauto | by intros (? & [= <-] & _ & ?)].
  - simpl. split; [discriminate | by intros (? & ? & _)].
Qed.

Lemma inputShown_spec p s :
  inputShown (render p s) = true <->
  exists bs, battleStatus s = Some bs /\ loading s = false /\ ~ both_all_submitted bs.
Proof.
  unfold render. destruct (battleStatus s) as [bs|].
  - destruct (loading s); simpl.
    + split; [discriminate | by intros (? & _ & ? & _)].
    + rewrite negb_true_iff, <- not_true_iff_false, allSegmentsComplete_spec.
      split; [eauto | by intros (? & [= <-] & _ & ?)].
  - simpl. split; [discriminate | by intros (? & ? & _)].
Qed.

Lemma press_needs_button p s s' fx :
  step p s PressJudge = Some (s', fx) ->
  phase s = Live /\ judgeShown (render p s) = true /\ isJudging s = false.
Proof.
  simpl. destruct (phase s); try discriminate.
  destruct (judgeShown (render p s)) eqn:Hs; [|discriminate].
  destruct (judgeDisabled (render p s)) eqn:Hd; [discriminate|]. intros _.
  repeat split. unfold render in Hs, Hd.
  destruct (battleStatus s); [|discriminate]. by destruct (loading s).
Qed.

(** C3. The Request AI Judgment button is on the screen exactly when the
    stored battle status marks opening, rebuttal and closing as submitted
    for both players; where the battle view is shown the segment input is
    there exactly when the button is not; and a press on the button, the
    only way to requestJudgment, needs all six marks. *)
Theorem judge_button_iff_all_segments (p : Props) :
  (forall s,
     (judgeShown (render p s) = true <->
      exists bs, battleStatus s = Some bs /\ loading s = false /\ both_all_submitted bs) /\
     (inputShown (render p s) = true <->
      exists bs, battleStatus s = Some bs /\ loading s = false /\ ~ both_all_submitted bs) /\
     (loadingShown (render p s) = false ->
      inputShown (render p s) = negb (judgeShown (render p s))) /\
     (forall s' fx, step p s PressJudge = Some (s', fx) ->
      exists bs, battleStatus s = Some bs /\ both_all_submitted bs)) /\
  (forall es s fx,
     run p initial es = Some (s, fx) ->
     (judgeShown (render p s) = true <->
      exists bs, battleStatus s = Some bs /\ both_all_submitted bs)).
Proof.
  split.
  - intros s. split; [apply judgeShown_spec|]. split; [apply inputShown_spec|]. split.
    + unfold render. destruct (battleStatus s); [|discriminate].
      destruct (loading s); [discriminate|reflexivity].
    + intros s' fx Hstep. apply press_needs_button in Hstep as (_ & Hs & _).
      apply judgeShown_spec in Hs as (bs & ? & _ & ?). eauto.
  - intros es s fx Hrun. rewrite judgeShown_spec.
    pose proof (wf_loaded p s (wf_reachable p es s fx Hrun)) as Hl.
    split.
    + intros (bs & ? & _ & ?). eauto.
    + intros (bs & Hb & Hall). exists bs. split; [exact Hb|]. split; [|exact Hall].
      apply Hl. congruence.
Qed.

Lemma judge_button_iff_all_segments_witness :
  exists s,
    option_map fst (run sample_props initial ready_to_judge) = Some s /\
    battleStatus s = Some status_ready /\
    both_all_submitted status_ready /\
    judgeShown (render sample_props s) = true.
Proof.
  destruct (run sample_props initial ready_to_judge) as [[s fx]|] eqn:Hrun;
    [|vm_compute in Hrun; discriminate].
  exists s. split; [reflexivity|].
  assert (Hb : battleStatus s = Some status_ready).
  { vm_compute in Hrun. by injection Hrun as <- _. }
  assert (Hall : both_all_submitted status_ready).
  { split; [by intros []|]. exists (bob done3). split; [reflexivity | by intros []]. }
  split; [exact Hb|]. split; [exact Hall|].
  apply (proj2 (judge_button_iff_all_segments sample_props) ready_to_judge s fx Hrun).
  exists status_ready. by split.
Defined.

(** *** Navigation *)

Lemma nav_count_app fx1 fx2 : nav_count (fx1 ++ fx2) = nav_count fx1 + nav_count fx2.
Proof. unfold nav_count. by rewrite List.filter_app, length_app. Qed.



(** A timeout that finds the screen mounted navigates to the results. *)
Lemma timeout_navigates p s j rest :
  isMounted s = true -> navTimers s = j :: rest ->
  step p s NavigationTimeout = Some (set_navTimers rest s, [results_navigation p j]).
Proof. intros Hm Hn. simpl. rewrite Hn. unfold navigation_timeout. by rewrite Hm. Qed.


(** *** After the unmount *)



(** Unmounting cancels nothing that is under way. *)
Lemma unmount_pending s :
  statusInFlight (unmount s) = statusInFlight s /\
  segmentsInFlight (unmount s) = segmentsInFlight s /\
  judgeInFlight (unmount s) = judgeInFlight s /\
  navTimers (unmount s) = navTimers s.
Proof. by repeat split. Qed.




(** *** With the router in the loop *)











(** *** The judge button *)

Lemma busy_no_press p s :
  wf p s -> judgeInFlight s = 1 -> step p s PressJudge = None.
Proof.
  intros Hwf H1. pose proof (wf_judging p s Hwf) as Hj. rewrite H1 in Hj.
  destruct (isJudging s) eqn:Hi; [|discriminate].
  simpl. destruct (phase s); try reflexivity.
  unfold render. destruct (battleStatus s); [|reflexivity].
  destruct (loading s); simpl; [reflexivity|]. rewrite Hi. simpl.
  by rewrite andb_false_r.
Qed.

Lemma press_requests p s s' fx :
  wf p s -> step p s PressJudge = Some (s', fx) ->
  judgeInFlight s = 0 /\ judgeInFlight s' = 1 /\
  fx = [SetState "isJudging"; Fetch (judge_request p)].
Proof.
  intros Hwf Hstep.
  destruct (press_needs_button p s s' fx Hstep) as (Hp & Hs & Hi).
  pose proof (wf_judging p s Hwf) as Hj. rewrite Hi in Hj.
  simpl in Hstep. rewrite Hp, Hs in Hstep.
  destruct (judgeDisabled (render p s)); [discriminate|].
  unfold requestJudgment in Hstep. simpl in Hstep. injection Hstep as <- <-.
  simpl. by rewrite Hj.
Qed.

(** The response, whatever it is, gives the button back. *)
Lemma response_reenables p s r s' fx :
  wf p s -> step p s (JudgeResponse r) = Some (s', fx) ->
  isJudging s' = false /\ judgeInFlight s' = 0 /\
  (phase s = Live -> judgeShown (render p s) = true ->
   step p s' PressJudge = Some (requestJudgment p s')).
Proof.
  intros Hwf Hstep. pose proof (wf_judging p s Hwf) as Hj.
  simpl in Hstep. destruct (judgeInFlight s) as [|n] eqn:Hn; [discriminate|].
  destruct (isJudging s); [|discriminate]. injection Hj as ->.
  unfold requestJudgment_resume in Hstep. injection Hstep as <- <-.
  split; [reflexivity|]. split; [reflexivity|].
  intros Hp Hs. simpl. rewrite Hp.
  unfold render in *. simpl. destruct (battleStatus s); [|discriminate].
  destruct (loading s); [discriminate|]. simpl in *. by rewrite Hs.
Qed.

(** C2, as the code has it. At most one judge request is under way at any
    time: the button is disabled from the press until the response. The
    response, OK or not, clears isJudging, and a button that was on the
    screen can be pressed again: the screen keeps no record of a request
    that succeeded. *)
Theorem judge_request_one_in_flight p es s fx :
  run p initial es = Some (s, fx) ->
  judgeInFlight s <= 1 /\
  (judgeInFlight s = 1 -> step p s PressJudge = None) /\
  (forall s' fx',
     step p s PressJudge = Some (s', fx') ->
     judgeInFlight s = 0 /\ judgeInFlight s' = 1 /\
     fx' = [SetState "isJudging"; Fetch (judge_request p)]) /\
  (forall r s' fx',
     step p s (JudgeResponse r) = Some (s', fx') ->
     isJudging s' = false /\ judgeInFlight s' = 0 /\
     (phase s = Live -> judgeShown (render p s) = true ->
      step p s' PressJudge = Some (requestJudgment p s'))).
Proof.
  intros Hrun. pose proof (wf_reachable p es s fx Hrun) as Hwf.
  split; [|split; [|split]].
  - rewrite (wf_judging p s Hwf). destruct (isJudging s); lia.
  - by apply busy_no_press.
  - intros s' fx'. by apply press_requests.
  - intros r s' fx'. by apply response_reenables.
Qed.

Lemma judge_request_one_in_flight_witness :
  exists s,
    option_map fst
      (run sample_props initial (ready_to_judge ++ [PressJudge])) = Some s /\
    judgeInFlight s = 1 /\
    step sample_props s PressJudge = None.
Proof.
  destruct (run sample_props initial (ready_to_judge ++ [PressJudge]))
    as [[s fx]|] eqn:Hrun; [|vm_compute in Hrun; discriminate].
  exists s. split; [reflexivity|].
  assert (H1 : judgeInFlight s = 1).
  { vm_compute in Hrun. by injection Hrun as <- _. }
  split; [exact H1|].
  destruct (judge_request_one_in_flight sample_props _ s fx Hrun) as (_ & H & _).
  exact (H H1).
Defined.

(** C2, the claim as written, fails: after the first request succeeded the
    button is enabled again, and a second press sends a second request. *)
Lemma second_judge_request_after_success :
  option_map (fun r => fetches_to "/battle/b7/judge" (snd r))
    (run sample_props initial judge_twice)
  = Some [Fetch (judge_request sample_props); Fetch (judge_request sample_props)] /\
  option_map (fun r => List.filter is_alert (snd r))
    (run sample_props initial judge_twice)
  = Some [Alert "Success" "AI is analyzing the debate. Results will appear shortly..."].
Proof. split; reflexivity. Qed.

(** *** The pollers *)









(** A status poll that brings no status changes nothing but the loading
    flag. *)
Lemma failed_status_poll p (r : Response BattleStatus) s :
  failed r ->
  fetchBattleStatus_resume p r s
  = (set_loading false s,
     if threw r then [ConsoleError "Failed to fetch battle status:"; SetState "loading"]
     else [SetState "loading"]).
Proof. destruct r as [err|b|[data|]]; simpl; done. Qed.


End RoomFacts.

(** ** The battle lobby *)

Module LobbyFacts.
Import Http Lobby.

Ltac unfold_handlers :=
  unfold step, mount, unmount, loadBattles, loadTopics, loadBattles_resume,
    loadTopics_resume in *.

Lemma lobby_run_cons_inv p s e es s2 fx :
  run p s (e :: es) = Some (s2, fx) ->
  exists s1 fx1 fx2,
    step p s e = Some (s1, fx1) /\ run p s1 es = Some (s2, fx2) /\ fx = fx1 ++ fx2.
Proof.
  simpl. destruct (step p s e) as [[s1 fx1]|]; [|discriminate].
  destruct (run p s1 es) as [[s2' fx2]|] eqn:Hrun; [|discriminate].
  intros [= <- <-]. by exists s1, fx1, fx2.
Qed.






Lemma lobby_unmount_pending s : pending (unmount s) = pending s.
Proof. reflexivity. Qed.



(** A poll of the lobby that brings no list changes nothing but the
    loading flag. *)
Lemma failed_battles_poll (r : Response (list Battle)) s :
  failed r ->
  loadBattles_resume r s
  = (set_isLoading false s,
     if threw r then [ConsoleError "Failed to load battles:"; SetState "isLoading"]
     else [SetState "isLoading"]).
Proof. destruct r as [err|b|[data|]]; simpl; done. Qed.

End LobbyFacts.

(** ** The pollers of both screens *)

Module PollingFacts.
Import Http.




(** C6, as the code has it. A status poll of the room, or a battles poll of
    the lobby, that throws or is answered non-OK leaves the stored status
    (the stored list) and the intervals as they were and clears the loading
    flag; a thrown failure is logged with console.error, a non-OK answer is
    not logged; there is no alert and no navigation, and the next tick sends
    the same request again. *)
Theorem failed_poll_keeps_state :
  (forall p s (r : Response Room.BattleStatus) s' fx,
     failed r ->
     Room.step p s (Room.StatusResponse r) = Some (s', fx) ->
     Room.battleStatus s' = Room.battleStatus s /\
     Room.opponentTranscripts s' = Room.opponentTranscripts s /\
     Room.statusInterval s' = Room.statusInterval s /\
     Room.segmentsInterval s' = Room.segmentsInterval s /\
     Room.navTimers s' = Room.navTimers s /\
     Room.loading s' = false /\
     fx = (if threw r
           then [ConsoleError "Failed to fetch battle status:"; SetState "loading"]
           else [SetState "loading"]) /\
     (forall d, Room.statusInterval s = Some d ->
        option_map snd (Room.step p s' Room.StatusTick)
        = Some [Fetch (Room.status_request p)])) /\
  (forall p s (r : Response (list Lobby.Battle)) s' fx,
     failed r ->
     Lobby.step p s (Lobby.BattlesResponse r) = Some (s', fx) ->
     Lobby.battles s' = Lobby.battles s /\
     Lobby.interval s' = Lobby.interval s /\
     Lobby.isLoading s' = false /\
     fx = (if threw r
           then [ConsoleError "Failed to load battles:"; SetState "isLoading"]
           else [SetState "isLoading"]) /\
     (forall d, Lobby.interval s = Some d ->
        option_map snd (Lobby.step p s' Lobby.Tick)
        = Some [Fetch (Lobby.available_request p)])).
Proof.
  split.
  - intros p s r s' fx Hf Hstep. simpl in Hstep.
    destruct (Room.statusInFlight s) as [|n]; [discriminate|].
    rewrite (RoomFacts.failed_status_poll p r _ Hf) in Hstep.
    injection Hstep as <- <-. simpl. repeat split.
    intros d Hd. by rewrite Hd.
  - intros p s r s' fx Hf Hstep. simpl in Hstep.
    destruct (Lobby.battlesInFlight s) as [|n]; [discriminate|].
    rewrite (LobbyFacts.failed_battles_poll r _ Hf) in Hstep.
    injection Hstep as <- <-. simpl. repeat split.
    intros d Hd. by rewrite Hd.
Qed.

Lemma failed_poll_keeps_state_witness :
  exists s s',
    option_map fst (Room.run Room.sample_props Room.initial
                      [Room.Mount; Room.StatusResponse (Ok (Some Room.status_debating));
                       Room.StatusTick])
    = Some s /\
    Room.step Room.sample_props s
      (Room.StatusResponse (FetchRejects "Network request failed"))
    = Some (s', [ConsoleError "Failed to fetch battle status:"; SetState "loading"]) /\
    Room.battleStatus s' = Some Room.status_debating.
Proof.
  destruct (Room.run Room.sample_props Room.initial
              [Room.Mount; Room.StatusResponse (Ok (Some Room.status_debating));
               Room.StatusTick])
    as [[s fx]|] eqn:Hrun; [|vm_compute in Hrun; discriminate].
  assert (Hb : Room.battleStatus s = Some Room.status_debating).
  { vm_compute in Hrun. by injection Hrun as <- _. }
  assert (Hn : Room.statusInFlight s = 1).
  { vm_compute in Hrun. by injection Hrun as <- _. }
  destruct (Room.step Room.sample_props s
              (Room.StatusResponse (FetchRejects "Network request failed")))
    as [[s' fx']|] eqn:Hstep; [|simpl in Hstep; rewrite Hn in Hstep; discriminate].
  exists s, s'.
  destruct failed_poll_keeps_state as [H _].
  destruct (H Room.sample_props s (FetchRejects "Network request failed") s' fx' I Hstep)
    as (H1 & _ & _ & _ & _ & _ & H7 & _).
  simpl in H7. subst fx'. split; [reflexivity|]. split; [exact Hstep|].
  rewrite H1. exact Hb.
Defined.

(** C6, the claim as written, fails: a poll that is answered non-OK leaves
    no trace in the log. *)
Lemma refused_poll_not_logged :
  option_map snd (Room.run Room.sample_props Room.initial Room.refused_poll)
  = Some [Fetch (Room.status_request Room.sample_props); SetState "loading"] /\
  option_map (fun r => List.filter is_console_error (snd r))
    (Room.run Room.sample_props Room.initial Room.refused_poll)
  = Some [].
Proof. split; reflexivity. Qed.

End PollingFacts.

(** ** The login screen and the index screen *)

Module LoginFacts.
Import JsString Http Login.



(** The index screen decides where to go from the token it read when it
    rendered, not from what loadToken restored: started with no token in the
    store it replaces itself by /auth/login, also when loadToken has just put
    a verified token into the store. *)
Theorem index_navigates_on_first_token g me r w :
  Auth.token (Auth.state w) = None ->
  snd (Index.IndexScreen_mount g me r w)
  = snd (Auth.loadToken g me r w) ++ [RouterReplace "/auth/login" []] /\
  fst (Index.IndexScreen_mount g me r w) = fst (Auth.loadToken g me r w) /\
  List.filter is_navigation (snd (Index.IndexScreen_mount g me r w))
  = [RouterReplace "/auth/login" []].
Proof.
  intros Ht. unfold Index.IndexScreen_mount. rewrite Ht. simpl.
  destruct (Auth.loadToken g me r w) as [w' fx] eqn:Hl. simpl.
  repeat split. rewrite List.filter_app. simpl.
  assert (Hfx : List.filter is_navigation fx = []).
  { unfold Auth.loadToken in Hl. destruct g; simpl in Hl; [|by injection Hl as <- <-].
    destruct (Auth.truthy_item _); [|by injection Hl as <- <-].
    destruct me as [e|b|[u|]]; try (by injection Hl as <- <-).
    destruct r; by injection Hl as <- <-. }
  by rewrite Hfx.
Qed.

Lemma index_navigates_on_first_token_witness :
  Auth.token (Auth.state (fst (Index.IndexScreen_mount true
     (Ok (Some Auth.sample_user)) true Auth.device_with_token))) = Some "tok" /\
  List.filter is_navigation (snd (Index.IndexScreen_mount true
     (Ok (Some Auth.sample_user)) true Auth.device_with_token))
  = [RouterReplace "/auth/login" []].
Proof.
  split; [reflexivity|].
  exact (proj2 (proj2 (index_navigates_on_first_token true
           (Ok (Some Auth.sample_user)) true Auth.device_with_token eq_refl))).
Defined.




End LoginFacts.

(** ** The battle room: submitting and transcribing *)

Module SubmitFacts.
Import JsString Http Submit.





(** Transcripts dictated one after the other into an empty input come out
    joined by single spaces, with no space in front. *)
Lemma appendTranscript_fold prev ts :
  prev <> [] -> Forall (fun t => t <> []) ts ->
  fold_left appendTranscript ts prev = joined (prev :: ts).
Proof.
  revert prev. induction ts as [|t ts IH]; intros prev Hp Hall; [reflexivity|].
  inversion Hall as [|? ? Ht Hts]; subst. simpl fold_left.
  assert (Hstep : appendTranscript prev t = prev ++ lit " " ++ t).
  { unfold appendTranscript. by destruct prev. }
  rewrite Hstep, IH; [|by destruct prev|exact Hts].
  destruct ts as [|t' ts]; simpl; [reflexivity|].
  by rewrite <- !app_assoc.
Qed.

Theorem appendTranscript_joins ts :
  Forall (fun t => t <> []) ts ->
  fold_left appendTranscript ts [] = joined ts.
Proof.
  destruct ts as [|t ts]; intros Hall; [reflexivity|].
  inversion Hall as [|? ? Ht Hts]; subst. simpl fold_left.
  change (appendTranscript [] t) with t.
  by apply appendTranscript_fold.
Qed.

Lemma appendTranscript_joins_witness :
  fold_left appendTranscript [lit "We"; lit "should"; lit "not."] []
  = lit "We should not.".
Proof.
  rewrite appendTranscript_joins; [reflexivity|].
  repeat constructor; discriminate.
Defined.

End SubmitFacts.

(** ** The battle room: what whole runs do and never do *)

Module RoomRunFacts.
Import Http Room Events RoomFacts.

Lemma unloaded_step p s e s' fx :
  unloaded s -> brings_status e = false -> step p s e = Some (s', fx) ->
  unloaded s' /\ List.filter is_alert fx = [] /\ nav_count fx = 0 /\
  Forall (fun x => is_fetch x = true -> x = Fetch (status_request p)) fx.
Proof.
  intros (Hb & Hj & Hi & Hn & Ht) He Hstep. unfold unloaded, nav_count.
  destruct e; unfold_handlers; simpl in Hstep; rewrite ?Hj, ?Hi, ?Hn, ?Ht in Hstep;
    try discriminate.
  - destruct (phase s); [|discriminate..]. simplify_eq/=.
    repeat split; auto; try by repeat constructor.
  - destruct (phase s); try discriminate. simplify_eq/=. by repeat split.
  - destruct (statusInterval s); [|discriminate]. simplify_eq/=.
    repeat split; auto; try by repeat constructor.
  - destruct (statusInFlight s); [discriminate|].
    destruct r as [err|b|[data|]]; simpl in He; try discriminate;
      simplify_eq/=; repeat split; auto; try by repeat constructor.
  - destruct (phase s); try discriminate.
    unfold render in Hstep. rewrite Hb in Hstep. discriminate.
Qed.

(** A room whose status polls never bring a status stays on the loading
    view for good: it stores no status, shows no alert, never navigates, and
    the only requests it sends are status polls. *)
Theorem room_never_loaded p es s fx :
  Forall (fun e => brings_status e = false) es ->
  run p initial es = Some (s, fx) ->
  battleStatus s = None /\ render p s = loading_view /\
  List.filter is_alert fx = [] /\ nav_count fx = 0 /\
  Forall (fun x => is_fetch x = true -> x = Fetch (status_request p)) fx.
Proof.
  assert (Hgen : forall es s0 s fx,
    unloaded s0 -> Forall (fun e => brings_status e = false) es ->
    run p s0 es = Some (s, fx) ->
    unloaded s /\ List.filter is_alert fx = [] /\ nav_count fx = 0 /\
    Forall (fun x => is_fetch x = true -> x = Fetch (status_request p)) fx).
  { clear. induction es as [|e es IH]; intros s0 s fx Hu Hall Hrun.
    - simpl in Hrun. injection Hrun as <- <-. split; [exact Hu|]. by repeat split.
    - inversion Hall as [|? ? He Hes]; subst.
      apply run_cons_inv in Hrun as (s1 & fx1 & fx2 & H1 & H2 & ->).
      destruct (unloaded_step p s0 e s1 fx1 Hu He H1) as (Hu1 & Ha1 & Hn1 & Hf1).
      destruct (IH s1 s fx2 Hu1 Hes H2) as (Hu2 & Ha2 & Hn2 & Hf2).
      split; [exact Hu2|]. rewrite List.filter_app, Ha1, Ha2, nav_count_app, Hn1, Hn2.
      repeat split. apply Forall_app. by split. }
  intros Hall Hrun.
  destruct (Hgen es initial s fx) as ((Hb & _) & Ha & Hn & Hf); auto.
  { by repeat split. }
  repeat split; auto. unfold render. by rewrite Hb.
Qed.

Lemma room_never_loaded_witness :
  exists s fx,
    run sample_props initial failing_polls = Some (s, fx) /\
    render sample_props s = loading_view /\ List.filter is_alert fx = [].
Proof.
  destruct (run sample_props initial failing_polls) as [[s fx]|] eqn:Hrun;
    [|vm_compute in Hrun; discriminate].
  exists s, fx. split; [reflexivity|].
  destruct (room_never_loaded sample_props failing_polls s fx) as (_ & H1 & H2 & _);
    [repeat constructor | exact Hrun | by split].
Defined.

(** One step alerts exactly when it is the answer to a judge request, and
    sends a POST exactly when it is a press on the judge button. *)
Lemma step_alerts_and_posts p s e s' fx :
  step p s e = Some (s', fx) ->
  length (List.filter is_alert fx) = (if is_judge_response e then 1 else 0) /\
  fetches_to (judge_path p) fx
  = (if is_press e then [Fetch (judge_request p)] else []) /\
  Forall (room_request p) fx.
Proof.
  intros Hstep. unfold fetches_to, judge_path.
  assert (H1 : String.eqb (path (status_request p)) (path (judge_request p)) = false).
  { apply String.eqb_neq. unfold status_request, judge_request. simpl. intros H.
    apply String.app_inj, String.app_inj in H. discriminate. }
  assert (H2 : String.eqb (path (segments_request p)) (path (judge_request p)) = false).
  { apply String.eqb_neq. unfold segments_request, judge_request. simpl. intros H.
    apply String.app_inj, String.app_inj in H. discriminate. }
  assert (H3 : String.eqb (path (judge_request p)) (path (judge_request p)) = true).
  { apply String.eqb_refl. }
  destruct e; step_cases Hstep; simpl;
    rewrite ?H1, ?H2, ?H3; simpl;
    (split; [reflexivity|split; [reflexivity|]]);
    repeat match goal with
           | |- Forall _ (_ :: _) => constructor; [simpl; auto|]
           | |- Forall _ [] => constructor
           end.
Qed.

(** In every run of the battle room the alerts are the answers to judge
    requests, one each: no poll, tick or timeout ever alerts. The POSTs to
    /judge are the presses on the judge button, one each, and every request
    of the run is a status poll, a segments poll or such a POST, for the
    screen's own battle and with the screen's token. *)
Theorem room_alerts_and_requests p es s0 s fx :
  run p s0 es = Some (s, fx) ->
  length (List.filter is_alert fx) = length (List.filter is_judge_response es) /\
  length (fetches_to (judge_path p) fx) = length (List.filter is_press es) /\
  Forall (room_request p) fx.
Proof.
  unfold fetches_to. revert s0 fx. induction es as [|e es IH]; intros s0 fx Hrun.
  - simpl in Hrun. injection Hrun as <- <-. by repeat split.
  - apply run_cons_inv in Hrun as (s1 & fx1 & fx2 & H1 & H2 & ->).
    destruct (step_alerts_and_posts p s0 e s1 fx1 H1) as (Ha1 & Hp1 & Hr1).
    unfold fetches_to in Hp1.
    destruct (IH s1 fx2 H2) as (Ha2 & Hp2 & Hr2).
    rewrite !List.filter_app, !length_app, Ha1, Ha2, Hp1, Hp2. simpl.
    split; [by destruct (is_judge_response e)|].
    split; [by destruct (is_press e)|]. apply Forall_app. by split.
Qed.

Lemma room_alerts_and_requests_witness :
  exists fx,
    option_map snd (run sample_props initial judge_twice) = Some fx /\
    length (List.filter is_alert fx) = 1 /\
    length (fetches_to (judge_path sample_props) fx) = 2.
Proof.
  destruct (run sample_props initial judge_twice) as [[s fx]|] eqn:Hrun;
    [|vm_compute in Hrun; discriminate].
  exists fx. split; [reflexivity|].
  destruct (room_alerts_and_requests sample_props judge_twice initial s fx Hrun)
    as (Ha & Hp & _).
  split; [exact Ha | exact Hp].
Defined.

End RoomRunFacts.

(** ** The battle lobby: what whole runs do *)

Module LobbyRunFacts.
Import Http Lobby Events LobbyFacts.

(** A lobby mounted without a token redirects to the login screen and does
    nothing else: it sets no interval and sends no request, whatever
    happens afterwards. *)
Theorem lobby_without_token p es s fx :
  no_token p = true ->
  run p initial es = Some (s, fx) ->
  interval s = None /\ pending s = 0 /\
  List.filter is_fetch fx = [] /\
  fx = match es with [] => [] | _ => [RouterReplace "/auth/login" []] end.
Proof.
  intros Ht.
  assert (Hidle : forall es s0 s fx,
    phase s0 <> Fresh -> interval s0 = None -> pending s0 = 0 ->
    run p s0 es = Some (s, fx) ->
    interval s = None /\ pending s = 0 /\ fx = []).
  { clear. induction es as [|e es IH]; intros s0 s fx Hp Hi Hn Hrun.
    - simpl in Hrun. by injection Hrun as <- <-.
    - apply lobby_run_cons_inv in Hrun as (s1 & fx1 & fx2 & H1 & H2 & ->).
      unfold pending in Hn.
      assert (Hb : battlesInFlight s0 = 0) by lia.
      assert (Hc : topicsInFlight s0 = 0) by lia.
      destruct e; simpl in H1; rewrite ?Hi, ?Hb, ?Hc in H1; try discriminate.
      + destruct (phase s0); [done|discriminate..].
      + destruct (phase s0); try discriminate. injection H1 as <- <-.
        apply (IH (unmount s0) s fx2); simpl; auto; try (unfold pending; simpl; lia). }
  destruct es as [|e es]; intros Hrun.
  - simpl in Hrun. by injection Hrun as <- <-.
  - apply lobby_run_cons_inv in Hrun as (s1 & fx1 & fx2 & H1 & H2 & ->).
    destruct e; simpl in H1; try discriminate.
    unfold mount in H1. rewrite Ht in H1. simpl in H1. injection H1 as <- <-.
    destruct (Hidle es (set_phase Live (set_isMounted true initial)) s fx2)
      as (Hi & Hn & ->); simpl; auto.
Qed.

Lemma lobby_without_token_witness :
  exists s fx,
    run signed_out_props initial [Mount; Unmount] = Some (s, fx) /\
    interval s = None /\ List.filter is_fetch fx = [] /\
    fx = [RouterReplace "/auth/login" []].
Proof.
  destruct (run signed_out_props initial [Mount; Unmount]) as [[s fx]|] eqn:Hrun;
    [|vm_compute in Hrun; discriminate].
  exists s, fx. split; [reflexivity|].
  destruct (lobby_without_token signed_out_props [Mount; Unmount] s fx eq_refl Hrun)
    as (H1 & _ & H3 & H4).
  split; [exact H1|]. split; [exact H3 | exact H4].
Defined.




End LobbyRunFacts.

(** ** Signing out, creating and joining battles *)

Module ActionFacts.
Import Http.

(** handleLogout replaces the screen by /auth/login exactly when logout
    went through, and then the token is gone from the state and from
    AsyncStorage, so that a later loadToken sends no request and restores
    nothing; when removeItem rejects, the handler rejects too, nothing is
    navigated and the user is still signed in. *)
Theorem handleLogout_outcome (w : Auth.World) :
  Home.handleLogout true w
  = ({| Auth.state := Auth.set_token_user None None (Auth.state w);
        Auth.asyncStorage := delete "auth_token" (Auth.asyncStorage w) |},
     [RouterReplace "/auth/login" []], Resolved) /\
  Auth.asyncStorage (fst (fst (Home.handleLogout true w))) !! "auth_token" = None /\
  (forall g me r,
     List.filter is_fetch
       (snd (Auth.loadToken g me r (fst (fst (Home.handleLogout true w))))) = [] /\
     Auth.token
       (Auth.state (fst (Auth.loadToken g me r (fst (fst (Home.handleLogout true w))))))
     = None) /\
  Home.handleLogout false w = (w, [], Rejected Auth.storage_error).
Proof.
  unfold Home.handleLogout, Auth.logout. simpl.
  split; [reflexivity|]. split; [apply lookup_delete_eq|]. split; [|reflexivity].
  intros g me r. unfold Auth.loadToken. simpl. rewrite lookup_delete_eq. simpl.
  by destruct g.
Qed.

(** createBattle sends nothing without a topic, and a topic with id 0
    counts as none. With a topic it sends one request with the chosen topic
    and stance; it opens the room of the new battle only after an OK answer,
    and only if the lobby is still mounted when the timeout runs; any other
    answer ends in one alert and no navigation. *)
Theorem createBattle_outcome p sel st resp later :
  (LobbyActions.no_topic sel = true ->
   LobbyActions.createBattle p sel st resp later
   = [LobbyActions.Do (Alert "Select Topic" "Please select a topic first")]) /\
  (forall t,
     sel = Some t -> t <> 0%Z ->
     List.filter LobbyActions.is_request (LobbyActions.createBattle p sel st resp later)
     = [LobbyActions.CreateBattle t st (Lobby.token p)] /\
     List.filter LobbyActions.is_push (LobbyActions.createBattle p sel st resp later)
     = match resp with
       | Ok (Some battle_id) =>
           if later then [LobbyActions.RouterPush (LobbyActions.room_href battle_id)]
           else []
       | _ => []
       end /\
     ((forall id, resp <> Ok (Some id)) ->
      In (LobbyActions.Do (Alert "Error" "Failed to create battle"))
        (LobbyActions.createBattle p sel st resp later))).
Proof.
  unfold LobbyActions.createBattle, LobbyActions.no_topic. split.
  - destruct sel as [t|]; [|reflexivity]. by intros ->.
  - intros t -> Ht. apply Z.eqb_neq in Ht. rewrite Ht.
    destruct resp as [e|b|[id|]]; simpl.
    + repeat split. intros _. simpl. auto.
    + repeat split. intros _. simpl. auto.
    + split; [by destruct later|]. split; [by destruct later|].
      intros H. by destruct (H id).
    + repeat split. intros _. simpl. auto.
Qed.

Lemma createBattle_outcome_witness :
  LobbyActions.createBattle Lobby.sample_props (Some 0%Z) LobbyActions.pro
    (Ok (Some "b9")) true
  = [LobbyActions.Do (Alert "Select Topic" "Please select a topic first")] /\
  List.filter LobbyActions.is_push
    (LobbyActions.createBattle Lobby.sample_props (Some 3%Z) LobbyActions.pro
       (Ok (Some "b9")) false) = [].
Proof.
  split.
  - apply (proj1 (createBattle_outcome Lobby.sample_props (Some 0%Z) LobbyActions.pro
                    (Ok (Some "b9")) true)). reflexivity.
  - destruct (proj2 (createBattle_outcome Lobby.sample_props (Some 3%Z) LobbyActions.pro
                       (Ok (Some "b9")) false) 3%Z eq_refl) as (_ & H & _);
      [discriminate | exact H].
Defined.

(** joinBattle sends one join request. It opens the room only after an OK
    answer and the press on Start, without looking at the mounted flag; only
    a refusal that carries a body reloads the list of battles; every answer
    is shown in one alert. *)
Theorem joinBattle_outcome p battleId resp pressed s :
  List.filter LobbyActions.is_push (snd (LobbyActions.joinBattle p battleId resp pressed s))
  = match resp with
    | Ok _ =>
        if pressed then [LobbyActions.RouterPush (LobbyActions.room_href battleId)]
        else []
    | _ => []
    end /\
  fst (LobbyActions.joinBattle p battleId resp pressed s)
  = match resp with
    | NotOk (Some _) => fst (Lobby.loadBattles p s)
    | _ => s
    end /\
  List.filter LobbyActions.is_request
    (snd (LobbyActions.joinBattle p battleId resp pressed s))
  = LobbyActions.JoinBattle battleId (Lobby.token p) ::
    match resp with
    | NotOk (Some _) => [LobbyActions.Do (Fetch (Lobby.available_request p))]
    | _ => []
    end.
Proof.
  unfold LobbyActions.joinBattle.
  destruct resp as [e|[d|]|b]; simpl; try by repeat split.
  destruct pressed; by repeat split.
Qed.

End ActionFacts.

(** ** Practice sessions *)

Module SessionFacts.
Import Session.

Lemma get_put_same k d s : get (put k d s) k = Some d.
Proof. by destruct k. Qed.

Lemma get_put_other k k' d s : k' <> k -> get (put k d s) k' = get s k'.
Proof. by destruct k, k'. Qed.

Lemma keys_all s : length (Object_keys s) = 3 <-> forall k, get s k <> None.
Proof.
  destruct s as [[o|] [r|] [c|]]; unfold Object_keys; simpl; split; intros H;
    try discriminate; try reflexivity;
    try (intros []; discriminate);
    try (by destruct (H opening)); try (by destruct (H rebuttal));
    try (by destruct (H closing)).
Qed.

Lemma keys_put k d s :
  length (Object_keys (put k d s))
  = length (Object_keys s) + match get s k with Some _ => 0 | None => 1 end.
Proof.
  destruct s as [[o|] [r|] [c|]], k; unfold Object_keys; reflexivity.
Qed.

(** The session store keeps one segment per kind: setSegment replaces the
    segment of its kind and leaves the other kinds alone, the number of keys
    of segments grows only with a kind that was missing, and it is 3 exactly
    when all three kinds have been recorded. *)
Theorem setSegment_one_per_kind k d s :
  get (segments (setSegment k d s)) k = Some d /\
  (forall k', k' <> k -> get (segments (setSegment k d s)) k' = get (segments s) k') /\
  length (Object_keys (segments (setSegment k d s)))
  = length (Object_keys (segments s))
    + match get (segments s) k with Some _ => 0 | None => 1 end /\
  (length (Object_keys (segments s)) = 3 <-> forall k', get (segments s) k' <> None) /\
  sessionId (setSegment k d s) = sessionId s.
Proof.
  simpl. split; [apply get_put_same|]. split; [intros k'; apply get_put_other|].
  split; [apply keys_put|]. split; [apply keys_all | reflexivity].
Qed.

(** handleFinish does nothing without a session id, asks to complete the
    session while a kind is missing and sends nothing then; with all three
    kinds recorded it scores the session and opens /results if the scoring
    went through, and alerts without navigating if it did not. *)
Theorem handleFinish_needs_three scored s :
  (active_session s = None -> handleFinish scored s = []) /\
  (forall id,
     active_session s = Some id ->
     ((exists k, get (segments s) k = None) ->
      handleFinish scored s
      = [AlertBox "Incomplete Session"
           "Please complete all three segments before finishing."]) /\
     ((forall k, get (segments s) k <> None) ->
      handleFinish scored s
      = if scored then
          [SetIsScoringSession true; ScoreSession id; SetIsScoringSession false;
           RouterPush "/results"]
        else
          [SetIsScoringSession true; ScoreSession id; SetIsScoringSession false;
           AlertBox "Error" "Failed to score session";
           Console "Failed to score session"])).
Proof.
  unfold handleFinish. split; [by intros ->|].
  intros id ->. split.
  - intros [k Hk].
    assert (Hlt : length (Object_keys (segments s)) <> 3).
    { intros H3. by apply (proj1 (keys_all _) H3 k). }
    assert (Hle : length (Object_keys (segments s)) <= 3).
    { unfold Object_keys. etransitivity; [apply List.filter_length_le|]. simpl. lia. }
    destruct (Nat.ltb_spec (length (Object_keys (segments s))) 3); [reflexivity|lia].
  - intros Hall. apply keys_all in Hall. rewrite Hall. reflexivity.
Qed.

Lemma handleFinish_needs_three_witness :
  handleFinish true recorded_session
  = [SetIsScoringSession true; ScoreSession "s1"; SetIsScoringSession false;
     RouterPush "/results"] /\
  handleFinish true started_session
  = [AlertBox "Incomplete Session"
       "Please complete all three segments before finishing."].
Proof.
  split.
  - refine (proj2 (proj2 (handleFinish_needs_three true recorded_session) "s1" eq_refl) _).
    intros []; discriminate.
  - refine (proj1 (proj2 (handleFinish_needs_three true started_session) "s1" eq_refl) _).
    by exists rebuttal.
Defined.

(** handleStartSession resets the store before it asks for the session:
    whatever was recorded is gone afterwards, and a start that fails leaves
    the store in its initial state, with an alert and no navigation. A start
    that goes through stores the new session (a missing description as the
    empty string) and opens /session, with no segment recorded yet. So a
    handleFinish right after any start never scores: it does nothing after
    a failed start and asks to complete the session after a successful
    one. *)
Theorem handleStartSession_discards topicId resp s :
  segments (fst (handleStartSession topicId resp s)) = no_segments /\
  currentSegment (fst (handleStartSession topicId resp s)) = None /\
  (resp = None ->
   handleStartSession topicId resp s
   = (useSessionStore,
      [StartSession topicId; Console "Failed to start session:";
       WindowAlert "Failed to start session. Please try again."])) /\
  (forall r,
     resp = Some r ->
     handleStartSession topicId resp s
     = ({| sessionId := Some (session_id r); topicTitle := topic_title r;
           topicDescription := Http.or_default (topic_description r) "";
           stance := start_stance r; currentSegment := None;
           segments := no_segments |},
        [StartSession topicId; RouterPush "/session"])) /\
  (forall scored,
     handleFinish scored (fst (handleStartSession topicId resp s))
     = match resp with
       | Some r =>
           if String.eqb (session_id r) "" then []
           else [AlertBox "Incomplete Session"
                   "Please complete all three segments before finishing."]
       | None => []
       end).
Proof.
  unfold handleStartSession. destruct resp as [r|]; simpl.
  - repeat split; [discriminate|by intros r' [= <-]|].
    intros scored. unfold handleFinish, active_session. simpl.
    by destruct (String.eqb (session_id r) "").
  - repeat split. discriminate.
Qed.

Lemma handleStartSession_discards_witness :
  handleStartSession 3%Z None started_session
  = (useSessionStore,
     [StartSession 3%Z; Console "Failed to start session:";
      WindowAlert "Failed to start session. Please try again."]).
Proof.
  exact (proj1 (proj2 (proj2 (handleStartSession_discards 3%Z None started_session)))
           eq_refl).
Defined.

(** *** formatTime *)

Lemma digits_no_colon d : no_colon (DecimalString.NilEmpty.string_of_uint d).
Proof. induction d; simpl; auto; split; auto; discriminate. Qed.

Lemma split_colon_app a b :
  no_colon a -> split_colon (a +:+ ":" +:+ b) = Some (a, b).
Proof.
  induction a as [|c a IH]; simpl; [reflexivity|]. intros [Hc Ha].
  apply Ascii.eqb_neq in Hc. rewrite Hc, (IH Ha). reflexivity.
Qed.

Lemma parse_toString n : parse_nat (toString n) = Some n.
Proof.
  unfold parse_nat, toString.
  by rewrite DecimalString.NilEmpty.usu, DecimalNat.Unsigned.of_to.
Qed.

(** The seconds field, for every value a remainder by 60 can take. *)
Lemma seconds_field r :
  r < 60 ->
  parse_nat (padStart2 (toString r)) = Some r /\
  String.length (padStart2 (toString r)) = 2.
Proof.
  intros Hr.
  assert (Hall : forallb (fun r =>
            match parse_nat (padStart2 (toString r)) with
            | Some r' => Nat.eqb r' r
            | None => false
            end && Nat.eqb (String.length (padStart2 (toString r))) 2)
          (seq 0 60) = true) by (vm_compute; reflexivity).
  rewrite forallb_forall in Hall.
  assert (Hin : In r (seq 0 60)) by (apply in_seq; lia).
  specialize (Hall r Hin). apply andb_true_iff in Hall as [H1 H2].
  destruct (parse_nat (padStart2 (toString r))) as [r'|]; [|discriminate].
  apply Nat.eqb_eq in H1, H2. by subst.
Qed.

(** For the whole seconds a JavaScript number holds exactly, formatTime
    shows the minutes without padding and the seconds with exactly two
    digits, and the text can be read back: parsing it gives the number of
    seconds it was made from, so two different times never look the same. *)
Theorem formatTime_round_trip n :
  safe_integer n ->
  parseTime (formatTime n) = Some n /\
  (exists ss, formatTime n = toString (n / 60) +:+ ":" +:+ ss /\ String.length ss = 2) /\
  (forall m, safe_integer m -> formatTime m = formatTime n -> m = n).
Proof.
  intros _.
  assert (Hparse : forall k, parseTime (formatTime k) = Some k).
  { intros k. unfold parseTime, formatTime.
    rewrite split_colon_app by apply digits_no_colon.
    rewrite parse_toString.
    destruct (seconds_field (k mod 60)) as [-> _]; [by apply Nat.mod_upper_bound|].
    f_equal. symmetry. apply Nat.div_mod_eq. }
  split; [apply Hparse|]. split.
  - eexists. split; [reflexivity|].
    apply seconds_field. by apply Nat.mod_upper_bound.
  - intros m _ Hm. pose proof (Hparse m) as H1. rewrite Hm, Hparse in H1. congruence.
Qed.

Lemma formatTime_round_trip_witness :
  formatTime 65 = "1:05" /\ parseTime (formatTime 65) = Some 65.
Proof.
  split; [reflexivity|].
  apply (formatTime_round_trip 65). unfold safe_integer. lia.
Defined.

Example formatTime_examples :
  formatTime 0 = "0:00" /\ formatTime 65 = "1:05" /\ formatTime 3600 = "60:00".
Proof. repeat split. Qed.

End SessionFacts.
